(** * Vehicle monitoring console: session, navigation and polling controller

    A shallow embedding of the React front end of the vehicle monitoring
    system:

    - [Js]: the string methods the code calls ([toLowerCase], [includes],
      [split]), on ASCII strings;
    - [Api]: the axios wrapper (api.js) with its process-wide
      [Authorization] header;
    - [Nav]: the roles, the navigation table and the derivation of the role
      from the email (App.jsx);
    - [App]: the root component (App.jsx): auth listener, polling effect,
      role-filtered navigation and the tab router, as an event-driven
      transition system;
    - [CamSettings]: the source switch and the upload state machine of the
      settings view;
    - [ViolationArchive]: the archive listing and the evidence modal;
    - [JsArray], [LiveMonitor]: the rendering of the recent-violation feed
      over a heap of JavaScript arrays;
    - [Page]: the root component together with the view it mounts, and the
      continuations that outlive an unmounted view.

    React state hooks are fields of a record, event handlers and promise
    continuations are transitions, and every transition reports the
    effects it performs (requests made through axios, console output,
    calls of [setAuthToken], timers, reloads). The image and video
    elements load their sources without axios and are part of what is
    rendered, not of the effects. *)

From stdpp Require Import base option list strings gmap.
From Stdlib Require Import Ascii String List Arith Lia.
Import ListNotations.

Local Open Scope string_scope.

(* ================================================================== *)
(** ** JavaScript string methods *)
(* ================================================================== *)

Module Js.

(** [String.prototype.toLowerCase] on one ASCII character: the letters
    [A]..[Z] (codes 65..90) move by 32, every other byte is kept. *)
Definition lower_ascii (c : ascii) : ascii :=
  let n := nat_of_ascii c in
  if (65 <=? n)%nat && (n <=? 90)%nat then ascii_of_nat (n + 32) else c.

Fixpoint toLowerCase (s : string) : string :=
  match s with
  | EmptyString => EmptyString
  | String c s' => String (lower_ascii c) (toLowerCase s')
  end.

(** [s.startsWith(p)]. *)
Fixpoint startsWith (p s : string) : bool :=
  match p, s with
  | EmptyString, _ => true
  | String a p', String b s' => Ascii.eqb a b && startsWith p' s'
  | String _ _, EmptyString => false
  end.

(** [s.includes(needle)]: [needle] occurs at some position of [s]. *)
Fixpoint includes (needle s : string) : bool :=
  startsWith needle s ||
  match s with
  | EmptyString => false
  | String _ s' => includes needle s'
  end.

(** [s.split(sep)] for a one-character separator. *)
Fixpoint split (sep : ascii) (s : string) : list string :=
  match s with
  | EmptyString => [EmptyString]
  | String c s' =>
      if Ascii.eqb c sep then EmptyString :: split sep s'
      else match split sep s' with
           | w :: ws => String c w :: ws
           | [] => [String c EmptyString]
           end
  end.

(** The declarative reading of "contains": [needle] is a factor of [s]. *)
Definition contains (needle s : string) : Prop :=
  exists pre post : string, s = pre +:+ needle +:+ post.

End Js.

(* ================================================================== *)
(** ** Effects performed by handlers *)
(* ================================================================== *)

(** What a handler does to the outside world, in program order. *)
Inductive Effect :=
| CallSetAuthToken (token : option string)   (* setAuthToken(token) *)
| GetIdToken (uid : string)                  (* currentUser.getIdToken() *)
| HttpGet (path : string) (hdrs : gmap string string)
| HttpPost (path : string) (hdrs : gmap string string) (body : string)
| ConsoleError (msg : string)
| Alert (msg : string)
| SignOut
| SetTimeout (ms : nat)
| Reload.                                    (* window.location.reload() *)

(** Running a handler-per-event machine over a list of events, from a
    state, collecting the effects in order. *)
Section Machine.
Context {St Ev : Type} (step : St -> Ev -> St * list Effect).

Fixpoint run_with (s : St) (evs : list Ev) : St * list Effect :=
  match evs with
  | [] => (s, [])
  | ev :: evs' =>
      let '(s1, out1) := step s ev in
      let '(s2, out2) := run_with s1 evs' in
      (s2, (out1 ++ out2)%list)
  end.
End Machine.

(* ================================================================== *)
(** ** api.js *)
(* ================================================================== *)

Module Api.

Definition API_BASE : string := "http://localhost:8005".

(** JavaScript truthiness of a string: only the empty string is falsy. *)
Definition truthy (s : string) : bool := negb (String.eqb s "").

(** [api.defaults.headers.common] of the instance made by
    [axios.create({ baseURL })]: the library's default [Accept] header. *)
Definition default_common : gmap string string :=
  {[ "Accept" := "application/json, text/plain, */*" ]}.

(** [api.defaults.headers.common], an object used as a map. [token] is
    [None] for [null]. *)
Definition setAuthToken (token : option string)
    (common : gmap string string) : gmap string string :=
  match token with
  | Some t =>
      if truthy t then <["Authorization" := "Bearer " +:+ t]> common
      else delete "Authorization" common
  | None => delete "Authorization" common
  end.

Definition getStreamUrl : string := API_BASE +:+ "/video_feed".

Definition getViolationVideoUrl (filename : string) : string :=
  API_BASE +:+ "/video/violation/" +:+ filename.

End Api.

(* ================================================================== *)
(** ** Roles and the navigation table (App.jsx, [navItems]) *)
(* ================================================================== *)

Module Nav.

Inductive Role := admin | operator.

#[global] Instance Role_eq_dec : EqDecision Role.
Proof. solve_decision. Defined.

Record NavItem := {
  id : string;
  label : string;
  roles : list Role
}.

Definition navItems : list NavItem :=
  [ {| id := "live"; label := "Live Monitor"; roles := [admin; operator] |};
    {| id := "archive"; label := "Violation Archive"; roles := [admin; operator] |};
    {| id := "settings"; label := "Cam Settings"; roles := [admin] |} ].

(** [item.roles.includes(role)] *)
Definition roles_include (rs : list Role) (r : Role) : bool :=
  existsb (fun r' => bool_decide (r' = r)) rs.

(** [navItems.filter(item => item.roles.includes(role))] *)
Definition filteredNav (role : Role) : list NavItem :=
  List.filter (fun item => roles_include (roles item) role) navItems.

(** The identifiers of the views offered to a role, in table order. *)
Definition visible_views (role : Role) : list string :=
  map id (filteredNav role).

(** The view the specification calls the default permitted view. *)
Definition default_view (role : Role) : option string :=
  head (visible_views role).

(** The marker looked for in the principal's email. *)
Definition admin_marker : string := "admin".

(** [currentUser.email?.toLowerCase().includes('admin') ? 'admin' : 'operator'];
    a principal without an email gives [undefined], which is falsy. *)
Definition derive_role (email : option string) : Role :=
  match email with
  | Some e => if Js.includes admin_marker (Js.toLowerCase e) then admin else operator
  | None => operator
  end.

End Nav.

(* ================================================================== *)
(** ** App.jsx: the root component *)
(* ================================================================== *)

(** One entry of [stats.recent_violations]. *)
Record RecentViolation := {
  rv_type : string;
  tracker_id : nat;
  timestamp : string
}.

(** The body of [GET /stats]. *)
Record StatsSnapshot := {
  in_count : nat;
  out_count : nat;
  total_violations : nat;
  recent_violations : list RecentViolation;
  scene_type : option string
}.

Module App.
Import Nav.

Record User := { uid : string; email : option string }.

Record State := {
  user : option User;
  role : Role;
  loading : bool;
  activeTab : string;
  stats : StatsSnapshot;
  (* what the component closes over *)
  common : gmap string string;  (* api.defaults.headers.common *)
  interval : option nat;        (* the timer of setInterval, with its period *)
  exchanging : list User;       (* listener calls suspended at getIdToken *)
  fetching : nat                (* fetchStats promises not yet settled *)
}.

Definition init : State := {|
  user := None;
  role := operator;
  loading := true;
  activeTab := "live";
  stats := {| in_count := 0; out_count := 0; total_violations := 0;
              recent_violations := []; scene_type := None |};
  common := Api.default_common;
  interval := None;
  exchanging := [];
  fetching := 0
|}.

Inductive Event :=
| AuthStateChanged (currentUser : option User)  (* the listener is called *)
| IdTokenResolved (k : nat) (token : string)    (* k-th pending getIdToken *)
| IdTokenRejected (k : nat)
| IntervalFired                                 (* the setInterval callback *)
| StatsResolved (data : StatsSnapshot)          (* await fetchStats() returns *)
| StatsRejected (e : string)                    (* await fetchStats() throws *)
| NavClicked (k : nat)                          (* k-th button of the sidebar *)
| LogoutClicked.

(** The polling effect, which depends on [user]: its cleanup clears the
    timer, and the effect sets a new one when a user is present. *)
Definition polling_effect (u : option User) : option nat :=
  match u with
  | Some _ => Some 1000
  | None => None
  end.

(** The main layout (sidebar, header, view area) is rendered. *)
Definition renders_main (s : State) : bool :=
  negb (loading s) && bool_decide (is_Some (user s)).

(** One handler, callback or promise continuation of the root component,
    run together with the render that follows it: [interval] is what the
    polling effect leaves after that render. Module [Deferred] below takes
    the handler and the commit apart; its runs with a commit after each
    handler are the runs of this machine. *)
Definition step (s : State) (ev : Event) : State * list Effect :=
  match ev with
  | AuthStateChanged (Some u) =>
      (* if (currentUser) { const token = await currentUser.getIdToken(); *)
      ({| user := user s; role := role s; loading := loading s;
          activeTab := activeTab s; stats := stats s; common := common s;
          interval := interval s;
          exchanging := exchanging s ++ [u];
          fetching := fetching s |},
       [GetIdToken (uid u)])
  | AuthStateChanged None =>
      (* setAuthToken(null); setUser(null); setRole('operator'); setLoading(false) *)
      ({| user := None; role := operator; loading := false;
          activeTab := activeTab s; stats := stats s;
          common := Api.setAuthToken None (common s);
          interval := polling_effect None;
          exchanging := exchanging s;
          fetching := fetching s |},
       [CallSetAuthToken None])
  | IdTokenResolved k token =>
      match exchanging s !! k with
      | Some u =>
          (* setAuthToken(token); setUser(currentUser); setRole(userRole);
             setLoading(false) *)
          ({| user := Some u; role := derive_role (email u); loading := false;
              activeTab := activeTab s; stats := stats s;
              common := Api.setAuthToken (Some token) (common s);
              interval := polling_effect (Some u);
              exchanging := delete k (exchanging s);
              fetching := fetching s |},
           [CallSetAuthToken (Some token)])
      | None => (s, [])
      end
  | IdTokenRejected k =>
      (* the async listener rejects: nothing after the await runs *)
      match exchanging s !! k with
      | Some _ =>
          ({| user := user s; role := role s; loading := loading s;
              activeTab := activeTab s; stats := stats s; common := common s;
              interval := interval s;
              exchanging := delete k (exchanging s);
              fetching := fetching s |},
           [])
      | None => (s, [])
      end
  | IntervalFired =>
      match interval s with
      | Some _ =>
          (* const data = await fetchStats(); *)
          ({| user := user s; role := role s; loading := loading s;
              activeTab := activeTab s; stats := stats s; common := common s;
              interval := interval s; exchanging := exchanging s;
              fetching := S (fetching s) |},
           [HttpGet "/stats" (common s)])
      | None => (s, [])
      end
  | StatsResolved data =>
      match fetching s with
      | S n =>
          (* setStats(data) *)
          ({| user := user s; role := role s; loading := loading s;
              activeTab := activeTab s; stats := data; common := common s;
              interval := interval s; exchanging := exchanging s;
              fetching := n |},
           [])
      | O => (s, [])
      end
  | StatsRejected e =>
      match fetching s with
      | S n =>
          (* console.error("Failed to fetch stats", e) *)
          ({| user := user s; role := role s; loading := loading s;
              activeTab := activeTab s; stats := stats s; common := common s;
              interval := interval s; exchanging := exchanging s;
              fetching := n |},
           [ConsoleError "Failed to fetch stats"])
      | O => (s, [])
      end
  | NavClicked k =>
      if renders_main s then
        match filteredNav (role s) !! k with
        | Some item =>
            (* onClick={() => setActiveTab(item.id)} *)
            ({| user := user s; role := role s; loading := loading s;
                activeTab := id item; stats := stats s; common := common s;
                interval := interval s; exchanging := exchanging s;
                fetching := fetching s |},
             [])
        | None => (s, [])
        end
      else (s, [])
  | LogoutClicked =>
      (* signOut(auth): the provider answers with a later notification *)
      if renders_main s then (s, [SignOut]) else (s, [])
  end.

Definition run : State -> list Event -> State * list Effect :=
  run_with step.

Definition reachable (s : State) : Prop :=
  exists evs, (run init evs).1 = s.

Definition is_tick (ev : Event) : bool :=
  match ev with IntervalFired => true | _ => false end.

Definition is_failure (ev : Event) : bool :=
  match ev with StatsRejected _ => true | _ => false end.

Definition is_exchange (ev : Event) : bool :=
  match ev with IdTokenResolved _ _ => true | _ => false end.

Definition is_response (ev : Event) : bool :=
  match ev with StatsResolved _ => true | _ => false end.

(** How many times [setStats] is called along a run. *)
Fixpoint updates (s : State) (evs : list Event) : nat :=
  match evs with
  | [] => 0
  | ev :: evs' =>
      (match ev, fetching s with
       | StatsResolved _, S _ => 1
       | _, _ => 0
       end) + updates (step s ev).1 evs'
  end.

Definition is_polling (ev : Event) : bool :=
  is_tick ev || is_failure ev || is_response ev.

(** The three counters of the header: [<StatSmall label=... value=.../>]. *)
Definition header (s : State) : list (string * nat) :=
  [ ("IN", in_count (stats s));
    ("OUT", out_count (stats s));
    ("VIOLATIONS", total_violations (stats s)) ].

(** The views shown in the view area:
    [{activeTab === 'live' && <LiveMonitor/>}] and its two siblings. *)
Inductive View := LiveMonitorView | ViolationArchiveView | CamSettingsView.

Definition view_area (s : State) : list View :=
  if renders_main s then
    ((if String.eqb (activeTab s) "live" then [LiveMonitorView] else []) ++
     (if String.eqb (activeTab s) "archive" then [ViolationArchiveView] else []) ++
     (if String.eqb (activeTab s) "settings" then [CamSettingsView] else []))%list
  else [].

End App.

(* ================================================================== *)
(** ** CamSettings.jsx: source switch and upload *)
(* ================================================================== *)

Module CamSettings.

Record Preset := { name : string; source : string }.

Definition presets : list Preset :=
  [ {| name := "Source 1 (Main Road)"; source := "road_monitoring.mp4" |};
    {| name := "Source 2 (Parking)"; source := "parking2.mp4" |};
    {| name := "Source 3 (4K Highway)";
       source := "2103099-uhd_3840_2160_30fps.mp4" |} ].

(** A file of the chooser, by its name. *)
Definition File := string.

Record State := {
  uploadStatus : string;
  isUploading : bool;
  (* what the component closes over *)
  chooser : bool;          (* the file chooser opened by fileInputRef.current.click() *)
  uploads : list File;     (* uploadMedia promises not yet settled *)
  timers : nat;            (* setTimeout callbacks not yet run *)
  switches : list string   (* switchCamera promises not yet settled *)
}.

Definition init : State := {|
  uploadStatus := "";
  isUploading := false;
  chooser := false;
  uploads := [];
  timers := 0;
  switches := []
|}.

Inductive UploadEvent :=
| SelectClicked                    (* the SELECT FILE button *)
| FileChanged (files : list File)  (* onChange of the hidden input *)
| ChooserCancelled
| UploadResolved (k : nat)         (* await uploadMedia(file) returns *)
| UploadRejected (k : nat)         (* await uploadMedia(file) throws *)
| TimeoutFired.                    (* the callback of setTimeout *)

Inductive SwitchEvent :=
| PresetClicked (k : nat)
| SwitchResolved (k : nat)
| SwitchRejected (k : nat).

Inductive Event :=
| Upload (e : UploadEvent)
| Switch (e : SwitchEvent).

Definition msg_uploading : string := "Uploading to secure server...".
Definition msg_finalizing : string := "Finalizing AI initialization...".
Definition msg_error : string := "Error during upload.".

(** [onFileUpload], up to its first [await]. The handler looks at the
    file only. *)
Definition onFileUpload (hdrs : gmap string string) (files : list File)
    (s : State) : State * list Effect :=
  match files with
  | [] => (s, [])                              (* if (!file) return; *)
  | file :: _ =>
      (* setIsUploading(true); setUploadStatus('Uploading ...');
         await uploadMedia(file) *)
      ({| uploadStatus := msg_uploading; isUploading := true;
          chooser := chooser s; uploads := uploads s ++ [file];
          timers := timers s; switches := switches s |},
       [HttpPost "/upload" hdrs file])
  end.

Definition step_upload (hdrs : gmap string string) (s : State)
    (ev : UploadEvent) : State * list Effect :=
  match ev with
  | SelectClicked =>
      (* <button onClick={handleButtonClick} disabled={isUploading}> *)
      if isUploading s then (s, [])
      else ({| uploadStatus := uploadStatus s; isUploading := isUploading s;
               chooser := true; uploads := uploads s;
               timers := timers s; switches := switches s |}, [])
  | FileChanged files =>
      if chooser s then
        onFileUpload hdrs files
          {| uploadStatus := uploadStatus s; isUploading := isUploading s;
             chooser := false; uploads := uploads s;
             timers := timers s; switches := switches s |}
      else (s, [])
  | ChooserCancelled =>
      ({| uploadStatus := uploadStatus s; isUploading := isUploading s;
          chooser := false; uploads := uploads s;
          timers := timers s; switches := switches s |}, [])
  | UploadResolved k =>
      match uploads s !! k with
      | Some _ =>
          (* setUploadStatus('Finalizing ...'); setTimeout(reload, 2000) *)
          ({| uploadStatus := msg_finalizing; isUploading := isUploading s;
              chooser := chooser s; uploads := delete k (uploads s);
              timers := S (timers s); switches := switches s |},
           [SetTimeout 2000])
      | None => (s, [])
      end
  | UploadRejected k =>
      match uploads s !! k with
      | Some _ =>
          (* setUploadStatus('Error during upload.'); setIsUploading(false) *)
          ({| uploadStatus := msg_error; isUploading := false;
              chooser := chooser s; uploads := delete k (uploads s);
              timers := timers s; switches := switches s |},
           [])
      | None => (s, [])
      end
  | TimeoutFired =>
      match timers s with
      | S _ => (init, [Reload])            (* window.location.reload() *)
      | O => (s, [])
      end
  end.

(** [handleSwitch] and its continuations. *)
Definition step_switch (hdrs : gmap string string) (s : State)
    (ev : SwitchEvent) : State * list Effect :=
  match ev with
  | PresetClicked k =>
      match presets !! k with
      | Some cam =>
          ({| uploadStatus := uploadStatus s; isUploading := isUploading s;
              chooser := chooser s; uploads := uploads s; timers := timers s;
              switches := switches s ++ [source cam] |},
           [HttpPost "/switch_camera" hdrs (source cam)])
      | None => (s, [])
      end
  | SwitchResolved k =>
      match switches s !! k with
      | Some src =>
          (init,
           [Alert ("Switched to " +:+ src +:+ ". Stream will restart shortly.");
            Reload])
      | None => (s, [])
      end
  | SwitchRejected k =>
      match switches s !! k with
      | Some _ =>
          ({| uploadStatus := uploadStatus s; isUploading := isUploading s;
              chooser := chooser s; uploads := uploads s; timers := timers s;
              switches := delete k (switches s) |},
           [Alert "Failed to switch camera."])
      | None => (s, [])
      end
  end.

Definition step (hdrs : gmap string string) (s : State) (ev : Event)
    : State * list Effect :=
  match ev with
  | Upload e => step_upload hdrs s e
  | Switch e => step_switch hdrs s e
  end.

Definition run (hdrs : gmap string string)
    : State -> list Event -> State * list Effect :=
  run_with (step hdrs).

(** The states of one mounted instance of the component. *)
Definition reachable (s : State) : Prop :=
  exists hdrs evs, (run hdrs init evs).1 = s.

(** The status of the upload task as the component shows it. *)
Inductive Status := idle | uploading | finalizing | error.

Definition status (s : State) : Status :=
  if isUploading s then
    if String.eqb (uploadStatus s) msg_finalizing then finalizing else uploading
  else
    if String.eqb (uploadStatus s) msg_error then error else idle.

(** The message line is rendered when [uploadStatus] is not empty. *)
Definition shown_message (s : State) : option string :=
  if Api.truthy (uploadStatus s) then Some (uploadStatus s) else None.

(** The transitions of the upload task. *)
Inductive transition : Status -> Status -> Prop :=
| t_submit : transition idle uploading
| t_retry : transition error uploading
| t_ack : transition uploading finalizing
| t_fail : transition uploading error
| t_settle : transition finalizing idle.

End CamSettings.

(* ================================================================== *)
(** ** ViolationArchive.jsx: the archive listing and the evidence modal *)
(* ================================================================== *)

Module ViolationArchive.

(** One entry of the body of [GET /violations]. *)
Record Violation := {
  v_type : string;
  v_id : nat;
  time : string;
  filename : string
}.

Record State := {
  violations : list Violation;
  selectedVideo : option Violation;
  loading : bool;
  loads : nat   (* fetchViolations promises not yet settled *)
}.

Inductive Event :=
| RefreshClicked
| ViolationsResolved (data : list Violation)
| ViolationsRejected (e : string)
| ReviewClicked (k : nat)      (* Review Evidence on the k-th card *)
| CloseClicked.                (* the X button of the modal *)

(** [loadArchive], up to its [await]. *)
Definition loadArchive (s : State) (hdrs : gmap string string)
    : State * list Effect :=
  ({| violations := violations s; selectedVideo := selectedVideo s;
      loading := true; loads := S (loads s) |},
   [HttpGet "/violations" hdrs]).

(** The state hooks at mount, then the mount effect. *)
Definition mount (hdrs : gmap string string) : State * list Effect :=
  loadArchive {| violations := []; selectedVideo := None;
                 loading := true; loads := 0 |} hdrs.

(** The cards are rendered when the listing is loaded and not empty. *)
Definition cards (s : State) : list Violation :=
  if loading s then [] else violations s.

Definition step (hdrs : gmap string string) (s : State) (ev : Event)
    : State * list Effect :=
  match ev with
  | RefreshClicked => loadArchive s hdrs
  | ViolationsResolved data =>
      match loads s with
      | S n =>
          (* setViolations(data); setLoading(false) *)
          ({| violations := data; selectedVideo := selectedVideo s;
              loading := false; loads := n |}, [])
      | O => (s, [])
      end
  | ViolationsRejected e =>
      match loads s with
      | S n =>
          (* console.error(e); setLoading(false) *)
          ({| violations := violations s; selectedVideo := selectedVideo s;
              loading := false; loads := n |}, [ConsoleError e])
      | O => (s, [])
      end
  | ReviewClicked k =>
      match cards s !! k with
      | Some v =>
          (* onClick={() => setSelectedVideo(v)} *)
          ({| violations := violations s; selectedVideo := Some v;
              loading := loading s; loads := loads s |}, [])
      | None => (s, [])
      end
  | CloseClicked =>
      match selectedVideo s with
      | Some _ =>
          (* onClick={() => setSelectedVideo(null)} *)
          ({| violations := violations s; selectedVideo := None;
              loading := loading s; loads := loads s |}, [])
      | None => (s, [])
      end
  end.

Definition run (hdrs : gmap string string)
    : State -> list Event -> State * list Effect :=
  run_with (step hdrs).

(** The modal: [{selectedVideo && (<div> ... <video src=.../> ... </div>)}]. *)
Record Modal := {
  title : string;
  caption_id : nat;
  caption_time : string;
  video_src : string    (* the one <video> element of the modal *)
}.

Definition modals (s : State) : list Modal :=
  match selectedVideo s with
  | Some v =>
      [ {| title := v_type v +:+ " Evidence";
           caption_id := v_id v;
           caption_time := time v;
           video_src := Api.getViolationVideoUrl (filename v) |} ]
  | None => []
  end.

(** The media elements of the rendered component. *)
Definition video_elements (s : State) : list string :=
  map video_src (modals s).

End ViolationArchive.

(* ================================================================== *)
(** ** JavaScript arrays on a heap *)
(* ================================================================== *)

Module JsArray.

Definition loc := nat.

Section Ops.
Context {A : Type}.

(** [a.length] *)
Definition length (h : gmap loc (list A)) (a : loc) : option nat :=
  List.length <$> h !! a.

(** [a.slice()]: a new array with the same elements. *)
Definition slice (h : gmap loc (list A)) (a : loc)
    : option (gmap loc (list A) * loc) :=
  match h !! a with
  | Some xs => let b := fresh (dom h) in Some (<[b := xs]> h, b)
  | None => None
  end.

(** [a.reverse()]: reverses [a] in place and returns [a] itself. *)
Definition reverse (h : gmap loc (list A)) (a : loc)
    : option (gmap loc (list A) * loc) :=
  match h !! a with
  | Some xs => Some (<[a := rev xs]> h, a)
  | None => None
  end.

(** [a.map((v, i) => f(v, i))], for a callback without effects; only the
    result is kept. *)
Definition map {B : Type} (f : A -> nat -> B) (h : gmap loc (list A))
    (a : loc) : option (list B) :=
  imap (fun i v => f v i) <$> h !! a.
End Ops.

End JsArray.

(* ================================================================== *)
(** ** LiveMonitor.jsx: the live feed *)
(* ================================================================== *)

Module LiveMonitor.

(** The [stats] object in memory: [recent_violations] is a reference to
    an array. *)
Record StatsObj := {
  o_in_count : nat;
  o_out_count : nat;
  o_total_violations : nat;
  o_recent_violations : JsArray.loc;
  o_scene_type : option string
}.

(** The snapshot an object stands for in a heap. *)
Definition load (h : gmap JsArray.loc (list RecentViolation)) (o : StatsObj)
    : option StatsSnapshot :=
  (fun xs => {| in_count := o_in_count o; out_count := o_out_count o;
                total_violations := o_total_violations o;
                recent_violations := xs;
                scene_type := o_scene_type o |})
  <$> h !! o_recent_violations o.

(** One card of the side feed. *)
Record Card := {
  key : nat;
  card_type : string;                (* {v.type} *)
  card_time : option string;         (* {v.timestamp.split('_')[1]} *)
  card_vehicle : nat                 (* Vehicle ID: {v.tracker_id} *)
}.

Definition card (v : RecentViolation) (i : nat) : Card :=
  {| key := i;
     card_type := rv_type v;
     card_time := Js.split "_" (timestamp v) !! 1;
     card_vehicle := tracker_id v |}.

Inductive Feed :=
| Scanning                       (* "Scanning for threats..." *)
| Cards (cs : list Card).

Record Rendered := {
  stream_src : string;           (* <img src={streamUrl}/> *)
  mode : string;                 (* {stats.scene_type || "DETECTING..."} MODE *)
  feed : Feed
}.

Definition mode_label (scene : option string) : string :=
  match scene with
  | Some t => if Api.truthy t then t else "DETECTING..."
  | None => "DETECTING..."
  end.

(** The render function: the heap after rendering and what is shown.
    [None] when [stats.recent_violations] is not an array of the heap. *)
Definition render (h : gmap JsArray.loc (list RecentViolation)) (stats : StatsObj)
    : option (gmap JsArray.loc (list RecentViolation) * Rendered) :=
  match JsArray.length h (o_recent_violations stats) with
  | Some 0 =>
      Some (h, {| stream_src := Api.getStreamUrl;
                  mode := mode_label (o_scene_type stats); feed := Scanning |})
  | Some (S _) =>
      (* stats.recent_violations.slice().reverse().map((v, i) => ...) *)
      match JsArray.slice h (o_recent_violations stats) with
      | Some (h1, copy) =>
          match JsArray.reverse h1 copy with
          | Some (h2, reversed) =>
              match JsArray.map card h2 reversed with
              | Some cs =>
                  Some (h2, {| stream_src := Api.getStreamUrl;
                               mode := mode_label (o_scene_type stats);
                               feed := Cards cs |})
              | None => None
              end
          | None => None
          end
      | None => None
      end
  | None => None
  end.

End LiveMonitor.

(* ================================================================== *)
(** ** The page: the root component with the view it mounts *)
(* ================================================================== *)

Module Page.

(** The component mounted in the view area, with its state. *)
Inductive Child :=
| NoView
| Live
| Archive (st : ViolationArchive.State)
| Settings (st : CamSettings.State).

(** Promise continuations and timers that outlive the component that
    created them: state setters of an unmounted component do nothing,
    the other statements still run. *)
Inductive Stray :=
| StrayLoad                      (* loadArchive after its await *)
| StrayUpload                    (* onFileUpload after its await *)
| StrayTimer                     (* setTimeout(reload, 2000) *)
| StraySwitch (src : string).    (* handleSwitch after its await *)

Record State := {
  app : App.State;
  child : Child;
  strays : list Stray
}.

Definition init : State :=
  {| app := App.init; child := NoView; strays := [] |}.

Inductive Event :=
| AppEv (e : App.Event)
| ArchiveEv (e : ViolationArchive.Event)
| SettingsEv (e : CamSettings.Event)
| StraySettled (k : nat) (ok : bool) (e : string).

Definition strays_of (c : Child) : list Stray :=
  match c with
  | NoView | Live => []
  | Archive st => replicate (ViolationArchive.loads st) StrayLoad
  | Settings st =>
      (List.map (fun _ => StrayUpload) (CamSettings.uploads st) ++
       replicate (CamSettings.timers st) StrayTimer ++
       List.map StraySwitch (CamSettings.switches st))%list
  end.

Definition mount (hdrs : gmap string string) (v : option App.View)
    : Child * list Effect :=
  match v with
  | None => (NoView, [])
  | Some App.LiveMonitorView => (Live, [])
  | Some App.ViolationArchiveView =>
      let '(st, out) := ViolationArchive.mount hdrs in (Archive st, out)
  | Some App.CamSettingsView => (Settings CamSettings.init, [])
  end.

(** After a render of the root: a view that is still wanted keeps its
    state; otherwise the old one is unmounted and the new one mounted. *)
Definition reconcile (a : App.State) (c : Child)
    : Child * list Stray * list Effect :=
  match head (App.view_area a), c with
  | Some App.LiveMonitorView, Live
  | Some App.ViolationArchiveView, Archive _
  | Some App.CamSettingsView, Settings _
  | None, NoView => (c, [], [])
  | v, _ =>
      let '(c', out) := mount (App.common a) v in (c', strays_of c, out)
  end.

Definition reloads (out : list Effect) : bool :=
  existsb (fun e => match e with Reload => true | _ => false end) out.

(** One event of the page, run together with the render that follows
    it: after a handler of the root, the view area is reconciled. *)
Definition step (s : State) (ev : Event) : State * list Effect :=
  match ev with
  | AppEv e =>
      let '(a, out1) := App.step (app s) e in
      let '(c, orphans, out2) := reconcile a (child s) in
      ({| app := a; child := c; strays := strays s ++ orphans |},
       (out1 ++ out2)%list)
  | ArchiveEv e =>
      match child s with
      | Archive st =>
          let '(st', out) := ViolationArchive.step (App.common (app s)) st e in
          ({| app := app s; child := Archive st'; strays := strays s |}, out)
      | _ => (s, [])
      end
  | SettingsEv e =>
      match child s with
      | Settings st =>
          let '(st', out) := CamSettings.step (App.common (app s)) st e in
          if reloads out then (init, out)
          else ({| app := app s; child := Settings st'; strays := strays s |}, out)
      | _ => (s, [])
      end
  | StraySettled k ok e =>
      match strays s !! k with
      | Some StrayLoad =>
          ({| app := app s; child := child s; strays := delete k (strays s) |},
           if ok then [] else [ConsoleError e])
      | Some StrayUpload =>
          if ok then
            ({| app := app s; child := child s;
                strays := <[k := StrayTimer]> (strays s) |},
             [SetTimeout 2000])
          else
            ({| app := app s; child := child s; strays := delete k (strays s) |},
             [])
      | Some StrayTimer => (init, [Reload])
      | Some (StraySwitch src) =>
          if ok then
            (init,
             [Alert ("Switched to " +:+ src +:+ ". Stream will restart shortly.");
              Reload])
          else
            ({| app := app s; child := child s; strays := delete k (strays s) |},
             [Alert "Failed to switch camera."])
      | None => (s, [])
      end
  end.

Definition run : State -> list Event -> State * list Effect :=
  run_with step.

Definition reachable (s : State) : Prop :=
  exists evs, (run init evs).1 = s.

(** The [uploadMedia] requests sent and not yet answered. *)
Definition uploads_in_flight (s : State) : nat :=
  match child s with
  | Settings st => List.length (CamSettings.uploads st)
  | _ => 0
  end
  + List.length (List.filter
      (fun x => match x with StrayUpload => true | _ => false end) (strays s)).

End Page.

(* ================================================================== *)
(** ** The page when React commits later *)
(* ================================================================== *)

(** [App.step] and [Page.step] run a handler together with the render
    that follows it. The auth listener, the timer callback and the promise
    continuations run outside React's event handlers: their state updates
    are rendered, and the effects of the render run (the polling timer
    cleared or set, views unmounted and mounted), in a later task, and
    other callbacks can run before it. Here the handler and the commit
    are two events. What a handler does outside React (the call of
    [setAuthToken], requests, timers of its own) happens in the handler's
    step; the buttons a click can reach are those of the last commit. *)
Module Deferred.

Record State := {
  page : Page.State;
  shown : App.State     (* the root state as the last commit rendered it *)
}.

Definition init : State := {| page := Page.init; shown := App.init |}.

Inductive Event :=
| Handler (ev : Page.Event)   (* a handler, callback or continuation runs *)
| Commit.                     (* React renders and runs the effects *)

Definition with_interval (i : option nat) (a : App.State) : App.State :=
  {| App.user := App.user a; App.role := App.role a;
     App.loading := App.loading a; App.activeTab := App.activeTab a;
     App.stats := App.stats a; App.common := App.common a;
     App.interval := i;
     App.exchanging := App.exchanging a; App.fetching := App.fetching a |}.

Definition with_activeTab (t : string) (a : App.State) : App.State :=
  {| App.user := App.user a; App.role := App.role a;
     App.loading := App.loading a; App.activeTab := t;
     App.stats := App.stats a; App.common := App.common a;
     App.interval := App.interval a;
     App.exchanging := App.exchanging a; App.fetching := App.fetching a |}.

(** A handler of the root component. The sidebar is the one of the last
    commit: its buttons exist when the main layout was rendered, and the
    k-th one calls [setActiveTab] with the identifier it was rendered
    with. The other handlers are those of [App.step]; the polling timer
    is left as it is, for the commit to clear or set. *)
Definition handle_app (rendered a : App.State) (e : App.Event)
    : App.State * list Effect :=
  match e with
  | App.NavClicked k =>
      if App.renders_main rendered then
        match Nav.filteredNav (App.role rendered) !! k with
        | Some item => (with_activeTab (Nav.id item) a, [])
        | None => (a, [])
        end
      else (a, [])
  | App.LogoutClicked =>
      if App.renders_main rendered then (a, [SignOut]) else (a, [])
  | _ =>
      let '(a', out) := App.step a e in
      (with_interval (App.interval a) a', out)
  end.

(** The commit: the polling effect runs for the [user] of the render
    (its cleanup clears the timer, the effect sets one for a user), and
    the view area is reconciled. *)
Definition commit (s : State) : State * list Effect :=
  let a := with_interval
             (App.polling_effect (App.user (Page.app (page s))))
             (Page.app (page s)) in
  let '(c, orphans, out) := Page.reconcile a (Page.child (page s)) in
  ({| page := {| Page.app := a; Page.child := c;
                 Page.strays := Page.strays (page s) ++ orphans |};
      shown := a |},
   out).

Definition step (s : State) (ev : Event) : State * list Effect :=
  match ev with
  | Handler (Page.AppEv e) =>
      let '(a, out) := handle_app (shown s) (Page.app (page s)) e in
      ({| page := {| Page.app := a; Page.child := Page.child (page s);
                     Page.strays := Page.strays (page s) |};
          shown := shown s |},
       out)
  | Handler ev' =>
      (* the mounted view and the continuations of unmounted views *)
      let '(p, out) := Page.step (page s) ev' in
      if Page.reloads out then (init, out)
      else ({| page := p; shown := shown s |}, out)
  | Commit => commit s
  end.

Definition run : State -> list Event -> State * list Effect :=
  run_with step.

Definition reachable (s : State) : Prop :=
  exists evs, (run init evs).1 = s.

End Deferred.

(** The files sent with [POST /upload], in order. *)
Definition uploaded_files (out : list Effect) : list string :=
  omap (fun e => match e with
                 | HttpPost path _ body =>
                     if String.eqb path "/upload" then Some body else None
                 | _ => None
                 end) out.

(** Requests sent to the backend. *)
Definition is_request (e : Effect) : bool :=
  match e with
  | HttpGet _ _ | HttpPost _ _ _ => true
  | _ => false
  end.







(* ================================================================== *)
(** ** Invariants and sample inputs *)
(* ================================================================== *)

Module Inv.
Import Nav.

(** What holds in every state of the root component: the active tab is
    one of the three views of the table, and the polling timer is set
    exactly when a user is present. *)
Definition app_inv (s : App.State) : Prop :=
  In (App.activeTab s) (map id navItems) /\
  App.interval s = App.polling_effect (App.user s).

(** What holds in every state of one mounted settings view: it is idle
    (nothing pending, the message empty or the error), or uploading (one
    request pending), or finalizing (the reload timer pending); while it
    is uploading or finalizing the file chooser is closed. *)
Definition cam_inv (s : CamSettings.State) : Prop :=
  (CamSettings.isUploading s = false /\ CamSettings.uploads s = [] /\
   CamSettings.timers s = 0 /\
   (CamSettings.uploadStatus s = "" \/
    CamSettings.uploadStatus s = CamSettings.msg_error)) \/
  (CamSettings.isUploading s = true /\ CamSettings.chooser s = false /\
   CamSettings.uploadStatus s = CamSettings.msg_uploading /\
   List.length (CamSettings.uploads s) = 1 /\ CamSettings.timers s = 0) \/
  (CamSettings.isUploading s = true /\ CamSettings.chooser s = false /\
   CamSettings.uploadStatus s = CamSettings.msg_finalizing /\
   CamSettings.uploads s = [] /\ CamSettings.timers s = 1).


End Inv.

Module Sample.

Definition admin_user : App.User :=
  {| App.uid := "u-admin"; App.email := Some "admin@co.com" |}.

Definition operator_user : App.User :=
  {| App.uid := "u-op"; App.email := Some "op@co.com" |}.

(** An administrator signs in and opens the settings view. *)
Definition admin_on_settings : list App.Event :=
  [ App.AuthStateChanged (Some admin_user);
    App.IdTokenResolved 0 "token-a";
    App.NavClicked 2 ].

(** ... then signs out, and an operator signs in. *)
Definition operator_after_admin : list App.Event :=
  (admin_on_settings ++
   [ App.AuthStateChanged None;
     App.AuthStateChanged (Some operator_user);
     App.IdTokenResolved 0 "token-o" ])%list.

Definition sample_stats : StatsSnapshot :=
  {| in_count := 5; out_count := 3; total_violations := 1;
     recent_violations :=
       [ {| rv_type := "speeding"; tracker_id := 42;
            timestamp := "2024-01-01_12:00:00" |} ];
     scene_type := None |}.

(** Two recent violations, the older one first. *)
Definition recent_pair : list RecentViolation :=
  [ {| rv_type := "speeding"; tracker_id := 42;
       timestamp := "2024-01-01_12:00:00" |};
    {| rv_type := "wrong way"; tracker_id := 7;
       timestamp := "2024-01-01_12:05:00" |} ].

(** A user signs in, one poll is sent, the user signs out, and then the
    answer to the poll arrives. *)
Definition late_response : list App.Event :=
  [ App.AuthStateChanged (Some operator_user);
    App.IdTokenResolved 0 "token-o";
    App.IntervalFired;
    App.AuthStateChanged None;
    App.StatsResolved sample_stats ].

(** An administrator starts an upload in the settings view, leaves the
    view and comes back, and starts a second upload. *)
Definition two_uploads : list Page.Event :=
  [ Page.AppEv (App.AuthStateChanged (Some admin_user));
    Page.AppEv (App.IdTokenResolved 0 "token-a");
    Page.AppEv (App.NavClicked 2);
    Page.SettingsEv (CamSettings.Upload CamSettings.SelectClicked);
    Page.SettingsEv (CamSettings.Upload (CamSettings.FileChanged ["a.mp4"]));
    Page.AppEv (App.NavClicked 0);
    Page.AppEv (App.NavClicked 2);
    Page.SettingsEv (CamSettings.Upload CamSettings.SelectClicked);
    Page.SettingsEv (CamSettings.Upload (CamSettings.FileChanged ["b.mp4"])) ].

(** An operator signs in, the first poll is sent, and the archive is
    opened. *)
Definition first_requests : list Page.Event :=
  [ Page.AppEv (App.AuthStateChanged (Some operator_user));
    Page.AppEv (App.IdTokenResolved 0 "token-o");
    Page.AppEv App.IntervalFired;
    Page.AppEv (App.NavClicked 1) ].

Definition archive : list ViolationArchive.Violation :=
  [ {| ViolationArchive.v_type := "speeding"; ViolationArchive.v_id := 42;
       ViolationArchive.time := "2024-01-01 12:00:00";
       ViolationArchive.filename := "v42.mp4" |};
    {| ViolationArchive.v_type := "wrong way"; ViolationArchive.v_id := 7;
       ViolationArchive.time := "2024-01-01 12:05:00";
       ViolationArchive.filename := "v7.mp4" |} ].

(** The archive view once its listing has arrived. *)
Definition archive_loaded : ViolationArchive.State :=
  (ViolationArchive.run ∅ (ViolationArchive.mount ∅).1
     [ViolationArchive.ViolationsResolved archive]).1.

(** With commits of their own: an operator signs in, React commits, the
    first poll is sent, and the archive is opened. *)
Definition deferred_requests : list Deferred.Event :=
  [ Deferred.Handler (Page.AppEv (App.AuthStateChanged (Some operator_user)));
    Deferred.Handler (Page.AppEv (App.IdTokenResolved 0 "token-o"));
    Deferred.Commit;
    Deferred.Handler (Page.AppEv App.IntervalFired);
    Deferred.Handler (Page.AppEv (App.NavClicked 1));
    Deferred.Commit ].


(** One upload in one mounted settings view, up to the request. *)
Definition one_upload : list CamSettings.Event :=
  [ CamSettings.Upload CamSettings.SelectClicked;
    CamSettings.Upload (CamSettings.FileChanged ["a.mp4"]) ].

End Sample.

(* ================================================================== *)
(** ** App.jsx: what the root component renders *)
(* ================================================================== *)

Module Shell.
Import Nav.

(** [s.replace(p, r)] for a pattern and a replacement of one character:
    the first occurrence only. *)
Fixpoint replace (p r : ascii) (s : string) : string :=
  match s with
  | EmptyString => EmptyString
  | String c s' =>
      if Ascii.eqb c p then String r s' else String c (replace p r s')
  end.

(** The [role] state is the string ['admin'] or ['operator']; [{role}]. *)
Definition role_text (r : Role) : string :=
  match r with admin => "admin" | operator => "operator" end.

(** One button of the sidebar; it is highlighted when
    [activeTab === item.id]. *)
Record NavButton := {
  nb_id : string;
  nb_label : string;
  nb_active : bool
}.

Record MainLayout := {
  nav : list NavButton;            (* filteredNav.map(...) *)
  user_name : option string;       (* {user?.email?.split('@')[0]} *)
  role_badge : string;             (* {role} *)
  title : string;                  (* {activeTab.replace('-', ' ')} *)
  counters : list (string * nat);  (* the three StatSmall *)
  area : list App.View             (* the view area *)
}.

Inductive Screen :=
| Spinner                          (* if (loading) *)
| LoginScreen                      (* if (!user) return <Login /> *)
| Main (m : MainLayout).

Definition sidebar_name (u : App.User) : option string :=
  match App.email u with
  | Some e => head (Js.split "@" e)
  | None => None
  end.

Definition render (s : App.State) : Screen :=
  if App.loading s then Spinner
  else
    match App.user s with
    | None => LoginScreen
    | Some u =>
        Main {| nav :=
                  List.map
                    (fun item =>
                       {| nb_id := id item; nb_label := label item;
                          nb_active := String.eqb (App.activeTab s) (id item) |})
                    (filteredNav (App.role s));
                user_name := sidebar_name u;
                role_badge := role_text (App.role s);
                title := replace "-" " " (App.activeTab s);
                counters := App.header s;
                area := App.view_area s |}
    end.

End Shell.

(* ================================================================== *)
(** ** Login.jsx: the sign-in form *)
(* ================================================================== *)

Module Login.

(** The error a sign-in promise rejects with: [err.code], [err.message]. *)
Record AuthError := {
  code : string;
  message : option string
}.

(** Calls made by the handlers. *)
Inductive Call :=
| SignInWithEmailAndPassword (email password : string)
| SignInWithPopup (prompt : string)   (* setCustomParameters({ prompt }) *)
| LogError (label : option string).   (* console.error([label,] err) *)

Inductive Attempt := PasswordAttempt | GoogleAttempt.

Record State := {
  email : string;
  password : string;
  error : string;
  loading : bool;
  attempts : list Attempt   (* sign-in promises not yet settled *)
}.

Definition init : State :=
  {| email := ""; password := ""; error := ""; loading := false;
     attempts := [] |}.

Inductive Event :=
| EmailChanged (v : string)
| PasswordChanged (v : string)
| FormSubmitted (format_ok : bool)     (* onSubmit={handleLogin} *)
| GoogleClicked                        (* onClick={handleGoogleLogin} *)
| SignInResolved (k : nat)
| SignInRejected (k : nat) (err : AuthError).

Definition msg_invalid : string :=
  "Invalid credentials. Please check your email/password.".
Definition msg_popup : string :=
  "Popup blocked! Please allow popups for this site.".
Definition msg_google : string := "Google sign-in failed.".

(** [err.code === 'auth/popup-blocked' ? '...' : (err.message || '...')] *)
Definition google_error (err : AuthError) : string :=
  if String.eqb (code err) "auth/popup-blocked" then msg_popup
  else match message err with
       | Some m => if Api.truthy m then m else msg_google
       | None => msg_google
       end.

(** The browser calls [onSubmit] only when the submit button is enabled
    ([disabled={loading}]), the two [required] inputs are filled and the
    value of the [type="email"] input has the format of an email address;
    the outcome of that last check comes with the event. *)
Definition can_submit (s : State) (format_ok : bool) : bool :=
  negb (loading s) && Api.truthy (email s) && Api.truthy (password s)
  && format_ok.

Definition step (s : State) (ev : Event) : State * list Call :=
  match ev with
  | EmailChanged v =>
      ({| email := v; password := password s; error := error s;
          loading := loading s; attempts := attempts s |}, [])
  | PasswordChanged v =>
      ({| email := email s; password := v; error := error s;
          loading := loading s; attempts := attempts s |}, [])
  | FormSubmitted format_ok =>
      if can_submit s format_ok then
        (* setLoading(true); setError('');
           await signInWithEmailAndPassword(auth, email, password) *)
        ({| email := email s; password := password s; error := "";
            loading := true; attempts := attempts s ++ [PasswordAttempt] |},
         [SignInWithEmailAndPassword (email s) (password s)])
      else (s, [])
  | GoogleClicked =>
      if loading s then (s, [])          (* disabled={loading} *)
      else
        (* setError(''); setLoading(true); await signInWithPopup(auth, provider) *)
        ({| email := email s; password := password s; error := "";
            loading := true; attempts := attempts s ++ [GoogleAttempt] |},
         [SignInWithPopup "select_account"])
  | SignInResolved k =>
      match attempts s !! k with
      | Some _ =>
          (* setLoading(false) *)
          ({| email := email s; password := password s; error := error s;
              loading := false; attempts := delete k (attempts s) |}, [])
      | None => (s, [])
      end
  | SignInRejected k err =>
      match attempts s !! k with
      | Some PasswordAttempt =>
          (* setError('Invalid credentials...'); console.error(err);
             setLoading(false) *)
          ({| email := email s; password := password s; error := msg_invalid;
              loading := false; attempts := delete k (attempts s) |},
           [LogError None])
      | Some GoogleAttempt =>
          (* console.error("Google Auth Error:", err); setError(...);
             setLoading(false) *)
          ({| email := email s; password := password s;
              error := google_error err;
              loading := false; attempts := delete k (attempts s) |},
           [LogError (Some "Google Auth Error:")])
      | None => (s, [])
      end
  end.

Fixpoint run (s : State) (evs : list Event) : State * list Call :=
  match evs with
  | [] => (s, [])
  | ev :: evs' =>
      let '(s1, out1) := step s ev in
      let '(s2, out2) := run s1 evs' in
      (s2, (out1 ++ out2)%list)
  end.

Definition reachable (s : State) : Prop :=
  exists evs, (run init evs).1 = s.

(** The error box: [{error && (<div>{error}</div>)}]. *)
Definition error_box (s : State) : option string :=
  if Api.truthy (error s) then Some (error s) else None.

End Login.

(* ================================================================== *)
(** ** More invariants and sample inputs *)
(* ================================================================== *)

Definition is_console_error (e : Effect) : bool :=
  match e with ConsoleError _ => true | _ => false end.

(** The sources sent with [POST /switch_camera], in order. *)
Definition switched_sources (out : list Effect) : list string :=
  omap (fun e => match e with
                 | HttpPost path _ body =>
                     if String.eqb path "/switch_camera" then Some body else None
                 | _ => None
                 end) out.

Module MoreInv.

(** The role is the one derived from the user present, operator when
    there is none. *)
Definition role_inv (s : App.State) : Prop :=
  App.role s =
  match App.user s with
  | Some u => Nav.derive_role (App.email u)
  | None => Nav.operator
  end.

(** While the spinner is shown nothing but the list of pending token
    exchanges differs from the initial state. *)
Definition loading_inv (s : App.State) : Prop :=
  App.loading s = true ->
  App.user s = None /\ App.role s = Nav.operator /\
  App.activeTab s = "live" /\ App.stats s = App.stats App.init /\
  App.common s = App.common App.init /\ App.interval s = None /\
  App.fetching s = 0.

(** The states of one mounted archive view. *)
Definition archive_reachable (s : ViolationArchive.State) : Prop :=
  exists hdrs evs,
    (ViolationArchive.run hdrs (ViolationArchive.mount hdrs).1 evs).1 = s.

(** The skeleton is shown only while a request is pending. *)
Definition archive_inv (s : ViolationArchive.State) : Prop :=
  ViolationArchive.loading s = true -> ViolationArchive.loads s <> 0.

(** The sign-in form is busy with exactly one attempt, or idle. *)
Definition login_inv (s : Login.State) : Prop :=
  (Login.loading s = true /\ List.length (Login.attempts s) = 1) \/
  (Login.loading s = false /\ Login.attempts s = []).

(** The view a mounted component stands for. *)
Definition kind (c : Page.Child) : option App.View :=
  match c with
  | Page.NoView => None
  | Page.Live => Some App.LiveMonitorView
  | Page.Archive _ => Some App.ViolationArchiveView
  | Page.Settings _ => Some App.CamSettingsView
  end.

(** The mounted component is the one the view area asks for. *)
Definition view_inv (s : Page.State) : Prop :=
  kind (Page.child s) = head (App.view_area (Page.app s)).



End MoreInv.

Module MoreSample.

(** A state of the sign-in form with the two fields filled. *)
Definition form_filled : Login.State :=
  (Login.run Login.init
     [Login.EmailChanged "op@co.com"; Login.PasswordChanged "secret"]).1.

(** The page with an operator on the archive, the listing arrived and the
    first evidence open. *)
Definition on_archive : list Page.Event :=
  (Sample.first_requests ++
   [ Page.ArchiveEv (ViolationArchive.ViolationsResolved Sample.archive);
     Page.ArchiveEv (ViolationArchive.ReviewClicked 0) ])%list.

(** The page with an upload whose settings view was left. *)
Definition upload_left_behind : list Page.Event := take 6 Sample.two_uploads.

End MoreSample.

(* ================================================================== *)
(** * Properties *)
(* ================================================================== *)

(** ** Strings *)

Section JsFacts.

Lemma startsWith_spec (p s : string) :
  Js.startsWith p s = true <-> exists post, s = p +:+ post.
Proof.
  revert s. induction p as [|a p IH]; intros s; simpl.
  - split; [intros _; by exists s | done].
  - destruct s as [|b s].
    + split; [done | intros [post H]; discriminate H].
    + rewrite andb_true_iff, Ascii.eqb_eq, IH. split.
      * intros [-> [post ->]]. by exists post.
      * intros [post H]. injection H as -> ->. split; [done | by exists post].
Qed.

Lemma includes_spec (needle s : string) :
  Js.includes needle s = true <-> Js.contains needle s.
Proof.
  unfold Js.contains. induction s as [|c s IH]; simpl.
  - rewrite orb_false_r, startsWith_spec. split.
    + intros [post H]. by exists EmptyString, post.
    + intros [[|a pre] [post H]]; [by exists post | discriminate H].
  - rewrite orb_true_iff, startsWith_spec, IH. split.
    + intros [[post H] | [pre [post H]]].
      * by exists EmptyString, post.
      * exists (String c pre), post. simpl. by rewrite H.
    + intros [[|a pre] [post H]].
      * left. by exists post.
      * right. simpl in H. injection H as -> ->. by exists pre, post.
Qed.

Lemma toLowerCase_app (a b : string) :
  Js.toLowerCase (a +:+ b) = Js.toLowerCase a +:+ Js.toLowerCase b.
Proof. induction a as [|c a IH]; simpl; [done | by rewrite IH]. Qed.

(** A marker without capital letters that occurs in a string also occurs
    in its lower-case form. *)
Lemma contains_toLowerCase (needle s : string) :
  Js.toLowerCase needle = needle ->
  Js.contains needle s -> Js.contains needle (Js.toLowerCase s).
Proof.
  intros Hn [pre [post ->]].
  exists (Js.toLowerCase pre), (Js.toLowerCase post).
  by rewrite !toLowerCase_app, Hn.
Qed.

End JsFacts.

(** ** C4: role derivation *)

Section RoleDerivation.
Import Nav.

(** C4, as stated, fails: the email [ADMIN@co.com] does not contain the
    marker [admin], and the code still derives the role admin, because it
    lower-cases the email before it looks for the marker. *)
Lemma role_marker_is_case_blind :
  ~ Js.contains admin_marker "ADMIN@co.com" /\
  derive_role (Some "ADMIN@co.com") = admin.
Proof.
  split; [| reflexivity].
  rewrite <- includes_spec. by vm_compute.
Qed.

(** C4, amended: role derivation is a function of the email alone; the
    role is admin exactly when the lower-cased email contains the marker
    [admin] (so in particular whenever the email itself contains it), and
    operator otherwise, also for a principal without an email; the role
    set at sign-in is this one. [admin@co.com] gives admin, which sees
    settings; [op@co.com] gives operator, which does not. *)
Theorem role_derivation :
  (forall e, derive_role (Some e) = admin <->
             Js.contains admin_marker (Js.toLowerCase e)) /\
  (forall e, derive_role (Some e) = operator <->
             ~ Js.contains admin_marker (Js.toLowerCase e)) /\
  derive_role None = operator /\
  (forall e, Js.contains admin_marker e -> derive_role (Some e) = admin) /\
  (forall s k token u, App.exchanging s !! k = Some u ->
     App.role (App.step s (App.IdTokenResolved k token)).1
     = derive_role (App.email u)) /\
  (derive_role (Some "admin@co.com") = admin /\
   In "settings" (visible_views admin)) /\
  (derive_role (Some "op@co.com") = operator /\
   ~ In "settings" (visible_views operator)).
Proof.
  assert (Hiff : forall e, derive_role (Some e) = admin <->
                   Js.contains admin_marker (Js.toLowerCase e)).
  { intros e. rewrite <- includes_spec. unfold derive_role.
    destruct (Js.includes _ _); split; congruence. }
  split; [exact Hiff |].
  split.
  { intros e. rewrite <- Hiff. destruct (derive_role (Some e)); split; congruence. }
  split; [reflexivity |].
  split.
  { intros e He. apply Hiff. by apply contains_toLowerCase. }
  split.
  { intros s k token u Hu. simpl. by rewrite Hu. }
  split.
  - split; [reflexivity | simpl; tauto].
  - split; [reflexivity |]. simpl. intros [H | [H | []]]; discriminate H.
Qed.

Lemma role_derivation_witness :
  Js.contains admin_marker "sysadmin@co.com" /\
  derive_role (Some "sysadmin@co.com") = admin /\
  App.role (App.run App.init (take 2 Sample.admin_on_settings)).1 = admin.
Proof.
  assert (H : Js.contains admin_marker "sysadmin@co.com").
  { by exists "sys", "@co.com". }
  destruct role_derivation as (_ & _ & _ & Hlit & Hstep & _).
  split; [exact H |]. split; [exact (Hlit "sysadmin@co.com" H) |].
  exact (Hstep (App.run App.init (take 1 Sample.admin_on_settings)).1
           0 "token-a" Sample.admin_user eq_refl).
Defined.

End RoleDerivation.

(** ** Runs *)

Section MachineFacts.
Context {St Ev : Type} (step : St -> Ev -> St * list Effect).

Lemma run_with_cons s ev evs :
  run_with step s (ev :: evs) =
  ((run_with step (step s ev).1 evs).1,
   ((step s ev).2 ++ (run_with step (step s ev).1 evs).2)%list).
Proof.
  simpl. destruct (step s ev) as [s1 o1]. simpl.
  by destruct (run_with step s1 evs) as [s2 o2].
Qed.

Lemma run_with_app s evs1 evs2 :
  run_with step s (evs1 ++ evs2) =
  ((run_with step (run_with step s evs1).1 evs2).1,
   ((run_with step s evs1).2 ++
    (run_with step (run_with step s evs1).1 evs2).2)%list).
Proof.
  revert s. induction evs1 as [|ev evs1 IH]; intros s.
  - simpl. by destruct (run_with step s evs2).
  - change ((ev :: evs1) ++ evs2)%list with (ev :: (evs1 ++ evs2))%list.
    rewrite !run_with_cons, IH. simpl. by rewrite app_assoc.
Qed.

Lemma run_with_preserves (P : St -> Prop) :
  (forall s ev, P s -> P (step s ev).1) ->
  forall evs s, P s -> P (run_with step s evs).1.
Proof.
  intros Hstep evs. induction evs as [|ev evs IH]; intros s Hs; [done |].
  rewrite run_with_cons. simpl. apply IH, Hstep, Hs.
Qed.

End MachineFacts.

(** ** The root component: runs and invariants *)

Section AppFacts.
Import Nav App Inv.

Lemma run_cons s ev evs :
  run s (ev :: evs) =
  ((run (step s ev).1 evs).1, ((step s ev).2 ++ (run (step s ev).1 evs).2)%list).
Proof. apply run_with_cons. Qed.

Lemma run_app s evs1 evs2 :
  run s (evs1 ++ evs2) =
  ((run (run s evs1).1 evs2).1,
   ((run s evs1).2 ++ (run (run s evs1).1 evs2).2)%list).
Proof. apply run_with_app. Qed.

Lemma run_preserves (P : State -> Prop) :
  (forall s ev, P s -> P (step s ev).1) ->
  forall evs s, P s -> P (run s evs).1.
Proof. apply run_with_preserves. Qed.

Lemma reachable_preserves (P : State -> Prop) :
  P init -> (forall s ev, P s -> P (step s ev).1) ->
  forall s, reachable s -> P s.
Proof.
  intros H0 Hstep s [evs <-]. by apply run_preserves.
Qed.

Lemma reachable_run s evs : reachable s -> reachable (run s evs).1.
Proof.
  intros [evs0 <-]. exists (evs0 ++ evs)%list. by rewrite run_app.
Qed.

Lemma filteredNav_sub r item :
  In item (filteredNav r) -> In item navItems.
Proof. unfold filteredNav. rewrite filter_In. tauto. Qed.

Lemma app_inv_step s ev : app_inv s -> app_inv (step s ev).1.
Proof.
  intros [Htab Hint]. unfold app_inv.
  destruct ev as [[u|] | k token | k | | data | e | k | ]; simpl;
    repeat case_match; simpl; (split; [| congruence]); try exact Htab.
  match goal with |- context [id ?n] => change (In (id n) (map id navItems)) end.
  apply in_map, (filteredNav_sub (role s)).
  apply list_elem_of_In. by eapply list_elem_of_lookup_2.
Qed.

Lemma app_inv_reachable s : reachable s -> app_inv s.
Proof.
  apply reachable_preserves; [| apply app_inv_step].
  split; [simpl; tauto | reflexivity].
Qed.

(** Only a click on a navigation button changes the active tab. *)
Lemma activeTab_step s ev :
  (forall k, ev <> NavClicked k) -> activeTab (step s ev).1 = activeTab s.
Proof.
  intros Hev.
  destruct ev as [[u|] | k token | k | | data | e | k | ]; simpl;
    repeat case_match; simpl; try done.
  all: by destruct (Hev k).
Qed.

(** No handler replaces the snapshot except the continuation of a fetch
    that succeeded. *)
Lemma stats_step s ev :
  (forall data, ev <> StatsResolved data) -> stats (step s ev).1 = stats s.
Proof.
  intros Hev.
  destruct ev as [[u|] | k token | k | | data | e | k | ]; simpl;
    repeat case_match; simpl; try done.
  all: by destruct (Hev data).
Qed.

(** One step keeps the books of the polls: sent = pending + applied +
    logged. *)
Lemma accounting_step s ev :
  fetching (step s ev).1 + updates s [ev]
    + List.length (List.filter is_console_error (step s ev).2)
  = fetching s + List.length (List.filter is_request (step s ev).2).
Proof.
  destruct ev as [[u|] | k token | k | | data | e | k | ]; simpl;
    repeat (case_match; simpl); lia.
Qed.

Lemma accounting_run evs : forall s,
  fetching (run s evs).1 + updates s evs
    + List.length (List.filter is_console_error (run s evs).2)
  = fetching s + List.length (List.filter is_request (run s evs).2).
Proof.
  induction evs as [|ev evs IH]; intros s; [simpl; lia |].
  rewrite run_cons. cbn [fst snd updates].
  rewrite !List.filter_app, !length_app.
  pose proof (accounting_step s ev) as H1. cbn [updates] in H1.
  pose proof (IH (step s ev).1) as H2. lia.
Qed.

End AppFacts.

(** ** C1: the active view and the role *)

Section ActiveView.
Import Nav App Inv.

(** C1, as stated, fails: an administrator opens the settings view and
    signs out, an operator signs in; the active tab is still [settings],
    which is not among the operator's views, it has not been reset to the
    operator's default view [live], and the settings view is rendered. *)
Lemma active_view_survives_role_change :
  let s := (run init Sample.operator_after_admin).1 in
  role s = operator /\
  activeTab s = "settings" /\
  ~ In (activeTab s) (visible_views (role s)) /\
  default_view (role s) = Some "live" /\
  view_area s = [CamSettingsView].
Proof.
  vm_compute. repeat split; try reflexivity.
  intros [H | [H | []]]; discriminate H.
Qed.

(** C1, amended: in every state the active tab is one of the views of the
    table; a click on a navigation button either changes nothing or sets
    the active tab to a view visible to the current role, and leaves the
    role alone; no other event (so no role transition) changes the active
    tab: there is no reset to a default view. Hence the active tab is
    visible to the current role whenever that role is admin or the tab is
    not [settings]. *)
Theorem active_view_gating (s : State) :
  reachable s ->
  In (activeTab s) (visible_views admin) /\
  (forall k, let s' := (step s (NavClicked k)).1 in
     s' = s \/ (In (activeTab s') (visible_views (role s)) /\ role s' = role s)) /\
  (forall ev, (forall k, ev <> NavClicked k) ->
     activeTab (step s ev).1 = activeTab s) /\
  (role s = admin \/ activeTab s <> "settings" ->
     In (activeTab s) (visible_views (role s))).
Proof.
  intros Hs. destruct (app_inv_reachable s Hs) as [Htab _].
  split; [exact Htab |].
  split.
  { intros k. simpl. destruct (renders_main s); [| by left].
    destruct (filteredNav (role s) !! k) as [item|] eqn:Hk; [| by left].
    right. simpl. split; [| done].
    apply in_map, list_elem_of_In. by eapply list_elem_of_lookup_2. }
  split; [apply activeTab_step |].
  intros [Hr | Hne].
  - by rewrite Hr.
  - destruct (role s); [exact Htab |].
    simpl in Htab |- *. destruct Htab as [H | [H | [H | []]]]; auto.
Qed.

Lemma active_view_gating_witness :
  let s := (run init Sample.admin_on_settings).1 in
  reachable s /\ In (activeTab s) (visible_views (role s)).
Proof.
  assert (Hr : reachable (run init Sample.admin_on_settings).1)
    by (by exists Sample.admin_on_settings).
  split; [exact Hr |].
  apply (active_view_gating _ Hr). left. reflexivity.
Defined.

End ActiveView.

(** ** C2: stopping the polling loop *)

Section PollingStop.
Import Nav App Inv.

(** C2, as stated, fails: a poll is sent, the user signs out (the timer is
    cleared), and the answer that arrives afterwards is still applied to
    the snapshot. *)
Lemma late_response_is_applied :
  let before := (run init (take 4 Sample.late_response)).1 in
  let after := (run init Sample.late_response).1 in
  user before = None /\ interval before = None /\
  fetching before = 1 /\ stats before = stats init /\
  user after = None /\ interval after = None /\
  stats after = Sample.sample_stats /\ stats after <> stats before.
Proof. vm_compute. repeat split; try reflexivity. discriminate. Qed.

Lemma stopped_step s ev :
  interval s = None -> is_exchange ev = false ->
  interval (step s ev).1 = None /\
  List.filter is_request (step s ev).2 = [] /\
  updates s [ev] + fetching (step s ev).1 <= fetching s /\
  (fetching s = 0 -> stats (step s ev).1 = stats s).
Proof.
  intros Hint Hev.
  destruct ev as [[u|] | k token | k | | data | e | k | ]; simpl in *;
    try discriminate Hev; rewrite ?Hint;
    repeat (case_match; simpl); repeat split; try done; try lia.
Qed.

(** C2, amended: the polling loop is stopped exactly when no user is
    present (session loss clears the timer). From then on, as long as no
    sign-in completes, the timer stays cleared and no request is sent;
    the snapshot is still updated by answers to polls that were in flight
    when the loop stopped, at most once per such poll, and it is not
    updated at all when none was in flight. *)
Theorem stopped_loop_fetches_nothing (s : State) (evs : list Event) :
  reachable s -> interval s = None ->
  forallb (fun ev => negb (is_exchange ev)) evs = true ->
  user s = None /\
  interval (run s evs).1 = None /\
  List.filter is_request (run s evs).2 = [] /\
  updates s evs + fetching (run s evs).1 <= fetching s /\
  (fetching s = 0 -> stats (run s evs).1 = stats s).
Proof.
  intros Hs Hint Hevs. split.
  { destruct (app_inv_reachable s Hs) as [_ Hi]. rewrite Hint in Hi.
    by destruct (user s). }
  clear Hs. revert s Hint Hevs.
  induction evs as [|ev evs IH]; intros s Hint Hevs.
  { simpl. repeat split; done. }
  simpl in Hevs. apply andb_true_iff in Hevs as [Hev Hevs].
  apply negb_true_iff in Hev.
  destruct (stopped_step s ev Hint Hev) as (H1 & H2 & H3 & H4).
  destruct (IH _ H1 Hevs) as (I1 & I2 & I3 & I4).
  rewrite run_cons. cbn [fst snd]. rewrite List.filter_app, H2, I2.
  split; [done |]. split; [done |]. split.
  - cbn [updates] in H3 |- *. lia.
  - intros H0. rewrite I4; [by apply H4 |]. cbn [updates] in H3. lia.
Qed.

Lemma stopped_loop_fetches_nothing_witness :
  let s := (run init (take 4 Sample.late_response)).1 in
  let evs := [IntervalFired; NavClicked 0; IntervalFired] in
  List.filter is_request (run s evs).2 = [] /\ updates s evs <= 1.
Proof.
  assert (Hr : reachable (run init (take 4 Sample.late_response)).1)
    by (by exists (take 4 Sample.late_response)).
  destruct (stopped_loop_fetches_nothing _
              [IntervalFired; NavClicked 0; IntervalFired] Hr
              eq_refl eq_refl) as (_ & _ & H & _ & _).
  split; [exact H | vm_compute; lia].
Defined.

End PollingStop.

(** ** C5: a failed poll does not stop the loop *)

Section PollingFailure.
Import Nav App Inv.

Lemma polling_step s ev :
  interval s = Some 1000 -> is_polling ev = true ->
  interval (step s ev).1 = Some 1000 /\
  common (step s ev).1 = common s /\
  List.filter is_request (step s ev).2 =
    (if is_tick ev then [HttpGet "/stats" (common s)] else []) /\
  (is_response ev = false -> stats (step s ev).1 = stats s).
Proof.
  intros Hint Hev.
  destruct ev as [[u|] | k token | k | | data | e | k | ]; simpl in *;
    try discriminate Hev; rewrite ?Hint;
    repeat (case_match; simpl); by repeat split.
Qed.

Lemma polling_run evs : forall s,
  interval s = Some 1000 ->
  forallb is_polling evs = true ->
  interval (run s evs).1 = Some 1000 /\
  common (run s evs).1 = common s /\
  List.filter is_request (run s evs).2 =
    replicate (List.length (List.filter is_tick evs)) (HttpGet "/stats" (common s)) /\
  (forallb (fun ev => negb (is_response ev)) evs = true ->
   stats (run s evs).1 = stats s).
Proof.
  induction evs as [|ev evs IH]; intros s Hint Hevs; [done |].
  simpl in Hevs. apply andb_true_iff in Hevs as [Hev Hevs].
  destruct (polling_step s ev Hint Hev) as (H1 & H2 & H3 & H4).
  destruct (IH _ H1 Hevs) as (I1 & I2 & I3 & I4).
  rewrite run_cons. cbn [fst snd]. rewrite List.filter_app, H3, I3, H2.
  split; [done |]. split; [congruence |]. split.
  - cbn [List.filter]. by destruct (is_tick ev).
  - simpl. intros Hno. apply andb_true_iff in Hno as [Hno1 Hno2].
    apply negb_true_iff in Hno1. rewrite I4, H4; done.
Qed.

(** C5: while a user is signed in, after any sequence of ticks and of
    polls that succeeded or failed, every tick has sent one [GET /stats]
    and the timer is still set with its period of 1000 ms; each of these
    polls is still in flight, or its answer was applied, or its failure
    was logged; when all the polls failed the snapshot is the one from
    before. From there, a tick sends a poll and the failure of that poll
    is logged, changes neither the snapshot nor the timer, and the next
    tick sends a poll again. *)
Theorem fetch_failure_keeps_polling (s : State) (evs : list Event) (e : string) :
  reachable s -> is_Some (user s) ->
  forallb is_polling evs = true ->
  let s1 := (run s evs).1 in
  let s2 := (step s1 (StatsRejected e)).1 in
  let r := run s1 [IntervalFired; StatsRejected e] in
  List.filter is_request (run s evs).2 =
    replicate (List.length (List.filter is_tick evs)) (HttpGet "/stats" (common s)) /\
  interval s1 = Some 1000 /\
  (forallb (fun ev => negb (is_response ev)) evs = true -> stats s1 = stats s) /\
  (fetching s1 <> 0 ->
     (step s1 (StatsRejected e)).2 = [ConsoleError "Failed to fetch stats"]) /\
  stats s2 = stats s1 /\ interval s2 = Some 1000 /\
  (step s2 IntervalFired).2 = [HttpGet "/stats" (common s)] /\
  fetching s1 + updates s evs
    + List.length (List.filter is_console_error (run s evs).2)
  = fetching s + List.length (List.filter is_tick evs) /\
  fetching (step s1 IntervalFired).1 = S (fetching s1) /\
  r.2 = [HttpGet "/stats" (common s); ConsoleError "Failed to fetch stats"] /\
  stats r.1 = stats s1 /\ interval r.1 = Some 1000 /\
  fetching r.1 = fetching s1 /\
  (step r.1 IntervalFired).2 = [HttpGet "/stats" (common s)].
Proof.
  intros Hs [u Hu] Hevs s1 s2 r.
  assert (Hint : interval s = Some 1000).
  { destruct (app_inv_reachable s Hs) as [_ Hi]. by rewrite Hi, Hu. }
  destruct (polling_run evs s Hint Hevs) as (I1 & I2 & I3 & I4).
  destruct (polling_step s1 (StatsRejected e) I1 eq_refl)
    as (H1 & H2 & _ & H4).
  pose proof (accounting_run evs s) as Ha.
  rewrite I3, length_replicate in Ha.
  fold s2 in H1, H2, H4. fold s1 in I1, I2, I4, Ha.
  clearbody s1.
  split; [exact I3 |]. split; [exact I1 |]. split; [exact I4 |].
  split.
  { intros Hf. simpl. by destruct (fetching s1). }
  split; [by apply H4 |]. split; [exact H1 |].
  split.
  { simpl. rewrite H1. simpl. congruence. }
  split; [exact Ha |].
  split.
  { simpl. by rewrite I1. }
  unfold r. rewrite !run_cons. cbn [run run_with fst snd].
  simpl. rewrite I1. simpl. rewrite ?I1, ?I2. simpl.
  destruct (fetching s1); by repeat split.
Qed.

Lemma fetch_failure_keeps_polling_witness :
  let s := (run init (take 2 Sample.late_response)).1 in
  let evs := [IntervalFired; StatsRejected "timeout"; IntervalFired;
              StatsResolved Sample.sample_stats; IntervalFired] in
  List.length (List.filter is_request (run s evs).2) = 3 /\
  interval (run s evs).1 = Some 1000 /\
  List.length (List.filter is_console_error (run s evs).2) = 1 /\
  List.length
    (List.filter is_console_error
       (run (run s evs).1 [IntervalFired; StatsRejected "reset"]).2) = 1.
Proof.
  assert (Hr : reachable (run init (take 2 Sample.late_response)).1)
    by (by exists (take 2 Sample.late_response)).
  destruct (fetch_failure_keeps_polling _
              [IntervalFired; StatsRejected "timeout"; IntervalFired;
               StatsResolved Sample.sample_stats; IntervalFired]
              "reset" Hr (ex_intro _ Sample.operator_user eq_refl) eq_refl)
    as (H1 & H2 & _ & _ & _ & _ & _ & H8 & _ & H10 & _).
  split; [by rewrite H1 |]. split; [exact H2 |].
  split; [| by rewrite H10].
  vm_compute in H8. vm_compute. lia.
Defined.

End PollingFailure.

(** ** C6: the snapshot is replaced as a whole *)

Section Snapshot.
Import Nav App Inv.

Lemma no_response_run evs : forall s,
  forallb (fun ev => negb (is_response ev)) evs = true ->
  stats (run s evs).1 = stats s.
Proof.
  induction evs as [|ev evs IH]; intros s Hevs; [done |].
  simpl in Hevs. apply andb_true_iff in Hevs as [Hev Hevs].
  rewrite run_cons. cbn [fst]. rewrite IH by done.
  apply stats_step. intros data ->. discriminate Hev.
Qed.

(** C6: every step leaves the snapshot as it is or replaces it by the
    body of a response, whole; and after any run, the snapshot is the
    body of the last response that was applied, whatever happened
    before it and whatever other events followed. *)
Theorem snapshot_is_last_response :
  (forall s ev,
     stats (step s ev).1 = stats s \/
     exists data, ev = StatsResolved data /\ stats (step s ev).1 = data) /\
  (forall s evs data evs',
     fetching (run s evs).1 <> 0 ->
     forallb (fun ev => negb (is_response ev)) evs' = true ->
     let s' := (run s (evs ++ StatsResolved data :: evs')).1 in
     stats s' = data /\
     header s' = [ ("IN", in_count data); ("OUT", out_count data);
                   ("VIOLATIONS", total_violations data) ]).
Proof.
  split.
  - intros s ev. destruct ev as [[u|] | k token | k | | data | e | k | ];
      simpl; repeat (case_match; simpl); eauto.
  - intros s evs data evs' Hf Hevs' s'.
    assert (Hst : stats s' = data).
    { unfold s'. rewrite run_app. cbn [fst]. rewrite run_cons. cbn [fst].
      rewrite no_response_run by done.
      simpl. by destruct (fetching (run s evs).1). }
    split; [exact Hst |]. unfold header. by rewrite Hst.
Qed.

Lemma snapshot_is_last_response_witness :
  header (run init (take 3 Sample.late_response ++
                    StatsResolved Sample.sample_stats :: [IntervalFired])).1
  = [("IN", 5); ("OUT", 3); ("VIOLATIONS", 1)].
Proof.
  apply (proj2 snapshot_is_last_response init (take 3 Sample.late_response)
           Sample.sample_stats [IntervalFired]).
  - vm_compute. discriminate.
  - reflexivity.
Defined.

End Snapshot.

(** ** The settings view: runs and invariants *)

Section CamSettingsFacts.
Import CamSettings Inv.

Lemma cam_inv_init : cam_inv init.
Proof. left. simpl. tauto. Qed.

Lemma cam_inv_step hdrs s ev : cam_inv s -> cam_inv (step hdrs s ev).1.
Proof.
  intros Hs. destruct s as [us iu ch ups tm sw].
  destruct Hs as [(? & ? & ? & Hmsg) | [(? & ? & ? & Hlen & ?) | (? & ? & ? & ? & ?)]];
    simpl in *; subst.
  - (* idle *)
    destruct ev as [[ | [|f fs] | | k | k | ] | [k | k | k]]; simpl;
      repeat (case_match; simpl); try apply cam_inv_init;
      try (left; simpl; tauto).
    all: right; left; simpl; tauto.
  - (* uploading *)
    destruct ups as [|f [|g ups]]; try discriminate Hlen.
    destruct ev as [[ | [|f' fs] | | [|k] | [|k] | ] | [k | k | k]]; simpl;
      repeat (case_match; simpl); try apply cam_inv_init;
      try (right; left; simpl; tauto).
    + right; right. simpl. tauto.
    + left. simpl. tauto.
  - (* finalizing *)
    destruct ev as [[ | [|f' fs] | | k | k | ] | [k | k | k]]; simpl;
      repeat (case_match; simpl); try apply cam_inv_init;
      try (right; right; simpl; tauto).
Qed.

Lemma cam_inv_reachable s : reachable s -> cam_inv s.
Proof.
  intros (hdrs & evs & <-).
  apply (run_with_preserves (step hdrs) cam_inv);
    [apply cam_inv_step | apply cam_inv_init].
Qed.

(** The handler itself does not look at [isUploading]: called with a
    file, it sends the request in every state. *)
Lemma onFileUpload_unguarded hdrs f fs s :
  (onFileUpload hdrs (f :: fs) s).2 = [HttpPost "/upload" hdrs f].
Proof. reflexivity. Qed.

End CamSettingsFacts.

(** ** C3: one upload at a time *)

Section SingleUpload.
Import CamSettings Inv.

(** C3, as stated, fails over a session: the upload state lives in the
    mounted settings view. An administrator starts an upload, leaves the
    view and comes back: the new view is idle, the second start is
    accepted, and two [POST /upload] requests are in flight. *)
Lemma second_upload_after_remount :
  let before := (Page.run Page.init (take 8 Sample.two_uploads)).1 in
  let r := Page.run Page.init Sample.two_uploads in
  Page.uploads_in_flight before = 1 /\
  Page.uploads_in_flight r.1 = 2 /\
  uploaded_files r.2 = ["a.mp4"; "b.mp4"].
Proof. vm_compute. repeat split; reflexivity. Qed.

(** C3, amended: in one mounted settings view at most one upload request
    is in flight, and a request in flight means [isUploading]; while
    [isUploading] (status uploading or finalizing) the select button is
    disabled and the file chooser is closed, so neither a click nor a
    change of the file input changes the state or sends a request. *)
Theorem one_upload_per_mounted_view (s : State) :
  reachable s ->
  List.length (uploads s) <= 1 /\
  (uploads s <> [] -> isUploading s = true) /\
  (isUploading s = true ->
     (status s = uploading \/ status s = finalizing) /\
     forall hdrs,
       step hdrs s (Upload SelectClicked) = (s, []) /\
       forall files, step hdrs s (Upload (FileChanged files)) = (s, [])).
Proof.
  intros Hs. apply cam_inv_reachable in Hs.
  destruct s as [us iu ch ups tm sw].
  destruct Hs as [(? & ? & ? & Hmsg) | [(? & ? & ? & Hlen & ?) | (? & ? & ? & ? & ?)]];
    simpl in *; subst; simpl.
  - split; [lia |]. split; [done |]. discriminate.
  - split; [lia |]. split; [done |]. intros _. split; [by left | done].
  - split; [lia |]. split; [done |]. intros _. split; [by right | done].
Qed.

Lemma one_upload_per_mounted_view_witness :
  let s := (run ∅ init Sample.one_upload).1 in
  isUploading s = true /\
  step ∅ s (Upload SelectClicked) = (s, []).
Proof.
  assert (Hr : reachable (run ∅ init Sample.one_upload).1)
    by (by exists ∅, Sample.one_upload).
  split; [reflexivity |].
  destruct (one_upload_per_mounted_view _ Hr) as (_ & _ & H).
  destruct (H eq_refl) as [_ H']. exact (proj1 (H' ∅)).
Defined.

End SingleUpload.

(** ** C7: the transitions of the upload task *)

Section UploadTransitions.
Import CamSettings Inv.

(** C7, as stated, fails in two ways. A camera switch that succeeds while
    a file is uploading reloads the page: the task goes from uploading to
    idle, which is none of the transitions listed. And when the settings
    view was left before the upload failed, the failure is not shown:
    nothing is written or alerted, and the settings view the user comes
    back to is idle with no message. *)
Lemma upload_task_leaves_listed_transitions :
  let s := (run ∅ init (Sample.one_upload ++ [Switch (PresetClicked 0)])).1 in
  let r := step ∅ s (Switch (SwitchResolved 0)) in
  let p := (Page.run Page.init MoreSample.upload_left_behind).1 in
  let q := Page.step p (Page.StraySettled 0 false "Network Error") in
  let back := (Page.step q.1 (Page.AppEv (App.NavClicked 2))).1 in
  (status s = uploading /\ status r.1 = idle /\ ~ transition uploading idle) /\
  (Page.uploads_in_flight p = 1 /\ q.2 = [] /\
   Page.child back = Page.Settings init /\ shown_message init = None).
Proof.
  vm_compute. repeat split; try reflexivity. intros H. inversion H.
Qed.

(** The upload events of one mounted settings view. *)
Lemma upload_events_transitions (s : State) (hdrs : gmap string string) :
  reachable s ->
  (forall ev, let s' := (step_upload hdrs s ev).1 in
     status s' = status s \/ transition (status s) (status s')) /\
  (forall f fs, isUploading s = false -> chooser s = true ->
     let r := step_upload hdrs s (FileChanged (f :: fs)) in
     status r.1 = uploading /\ r.2 = [HttpPost "/upload" hdrs f]) /\
  (forall k, status s = uploading -> is_Some (uploads s !! k) ->
     let r := step_upload hdrs s (UploadResolved k) in
     status r.1 = finalizing /\ r.2 = [SetTimeout 2000]) /\
  (status s = finalizing ->
     step_upload hdrs s TimeoutFired = (init, [Reload]) /\ status init = idle) /\
  (forall k, status s = uploading -> is_Some (uploads s !! k) ->
     let s' := (step_upload hdrs s (UploadRejected k)).1 in
     status s' = error /\ shown_message s' = Some msg_error /\
     isUploading s' = false /\
     forall f,
       let s1 := (step_upload hdrs s' SelectClicked).1 in
       let r := step_upload hdrs s1 (FileChanged [f]) in
       status r.1 = uploading /\ r.2 = [HttpPost "/upload" hdrs f]) /\
  (status s = uploading -> List.length (uploads s) = 1) /\
  (status s = finalizing -> timers s = 1).
Proof.
  intros Hs. apply cam_inv_reachable in Hs.
  destruct s as [us iu ch ups tm sw].
  destruct Hs as [(Hiu & Hup & Htm & [Hmsg | Hmsg])
                 | [(Hiu & Hch & Hmsg & Hlen & Htm)
                   | (Hiu & Hch & Hmsg & Hup & Htm)]];
    simpl in *; subst;
    (split;
     [ intros ev; destruct ev as [ | [|f fs] | | [|k] | [|k] | ]; simpl;
       repeat (case_match; simpl); (by left) || (right; constructor) |]);
    repeat split; intros; simpl in *; subst; try discriminate; try done.
  all: match goal with
       | H : is_Some (_ !! _) |- _ => destruct H as [? ->]
       end; reflexivity.
Qed.

(** C7, amended: in one mounted settings view, an upload event leaves the
    status of the task as it is or moves it along idle → uploading →
    finalizing → idle, uploading → error, error → uploading, and nowhere
    else. Submitting a file sends the request; the acknowledgement sets the
    2000 ms timer; the timer reloads the page, which leaves the task
    idle; a failed submission shows the error message and enables the
    select button again, so that a new file can be submitted. A task
    that is uploading has its request pending, one that is finalizing
    has its timer pending. Apart from the upload events: a camera switch
    that succeeds reloads the page and leaves the task idle whatever its
    status was, every other switch event leaves the status as it is; and
    the failure of an upload whose settings view was left writes no
    message and changes neither the root component nor the mounted
    view. *)
Theorem upload_task_transitions (s : State) (hdrs : gmap string string) :
  reachable s ->
  (forall ev, let s' := (step_upload hdrs s ev).1 in
     status s' = status s \/ transition (status s) (status s')) /\
  (forall f fs, isUploading s = false -> chooser s = true ->
     let r := step_upload hdrs s (FileChanged (f :: fs)) in
     status r.1 = uploading /\ r.2 = [HttpPost "/upload" hdrs f]) /\
  (forall k, status s = uploading -> is_Some (uploads s !! k) ->
     let r := step_upload hdrs s (UploadResolved k) in
     status r.1 = finalizing /\ r.2 = [SetTimeout 2000]) /\
  (status s = finalizing ->
     step_upload hdrs s TimeoutFired = (init, [Reload]) /\ status init = idle) /\
  (forall k, status s = uploading -> is_Some (uploads s !! k) ->
     let s' := (step_upload hdrs s (UploadRejected k)).1 in
     status s' = error /\ shown_message s' = Some msg_error /\
     isUploading s' = false /\
     forall f,
       let s1 := (step_upload hdrs s' SelectClicked).1 in
       let r := step_upload hdrs s1 (FileChanged [f]) in
       status r.1 = uploading /\ r.2 = [HttpPost "/upload" hdrs f]) /\
  (status s = uploading -> List.length (uploads s) = 1) /\
  (status s = finalizing -> timers s = 1) /\
  (forall ev, let s' := (step_switch hdrs s ev).1 in
     status s' = status s \/
     (s' = init /\ exists k, ev = SwitchResolved k /\ is_Some (switches s !! k))) /\
  (forall (p : Page.State) k e,
     Page.strays p !! k = Some Page.StrayUpload ->
     let q := Page.step p (Page.StraySettled k false e) in
     q.2 = [] /\ Page.app q.1 = Page.app p /\ Page.child q.1 = Page.child p).
Proof.
  intros Hs.
  destruct (upload_events_transitions s hdrs Hs)
    as (H1 & H2 & H3 & H4 & H5 & H6 & H7).
  split; [exact H1 |]. split; [exact H2 |]. split; [exact H3 |].
  split; [exact H4 |]. split; [exact H5 |]. split; [exact H6 |].
  split; [exact H7 |]. split.
  - intros [k | k | k]; simpl.
    + left. by destruct (presets !! k).
    + destruct (switches s !! k) eqn:E; simpl; [| by left].
      right. split; [done |]. exists k. by rewrite E.
    + left. by destruct (switches s !! k).
  - intros p k e Hk. simpl. by rewrite Hk.
Qed.

Lemma upload_task_transitions_witness :
  let s := (run ∅ init Sample.one_upload).1 in
  status s = uploading /\
  status (step_upload ∅ s (UploadResolved 0)).1 = finalizing /\
  status (step_upload ∅ s (UploadRejected 0)).1 = error.
Proof.
  assert (Hr : reachable (run ∅ init Sample.one_upload).1)
    by (by exists ∅, Sample.one_upload).
  destruct (upload_task_transitions _ ∅ Hr) as (_ & _ & Hack & _ & Hfail & _).
  split; [reflexivity |]. split.
  - exact (proj1 (Hack 0 eq_refl (ex_intro _ "a.mp4" eq_refl))).
  - exact (proj1 (Hfail 0 eq_refl (ex_intro _ "a.mp4" eq_refl))).
Defined.

End UploadTransitions.

(** ** C8: the evidence modal *)

Section Evidence.
Import ViolationArchive.

(** C8: the archive view shows at most one modal, with one video
    element; a click on Review Evidence of a listed violation makes that
    violation the selected one, whatever was selected before, so that
    opening B while A is open leaves B alone; closing sets the selection
    to null, and then neither a modal nor a video element is rendered. *)
Theorem evidence_modal_holds_one (hdrs : gmap string string) (s : State) :
  List.length (modals s) <= 1 /\
  List.length (video_elements s) <= 1 /\
  (forall k v, cards s !! k = Some v ->
     let s' := (step hdrs s (ReviewClicked k)).1 in
     selectedVideo s' = Some v /\
     video_elements s' = [Api.getViolationVideoUrl (filename v)]) /\
  (forall ka kb a b, cards s !! ka = Some a -> cards s !! kb = Some b ->
     let s' := (run hdrs s [ReviewClicked ka; ReviewClicked kb]).1 in
     selectedVideo s' = Some b /\
     video_elements s' = [Api.getViolationVideoUrl (filename b)]) /\
  (let s' := (step hdrs s CloseClicked).1 in
   selectedVideo s' = None /\ modals s' = [] /\ video_elements s' = []).
Proof.
  split; [unfold modals; destruct (selectedVideo s); simpl; lia |].
  split; [unfold video_elements, modals; destruct (selectedVideo s); simpl; lia |].
  split.
  { intros k v Hk. simpl. rewrite Hk. done. }
  split.
  { intros ka kb a b Ha Hb. unfold run. rewrite !run_with_cons. cbn [fst].
    assert (Hc : cards (step hdrs s (ReviewClicked ka)).1 = cards s)
      by (simpl; by rewrite Ha).
    cbn [step]. fold (step hdrs s (ReviewClicked ka)).
    rewrite Hc, Hb. done. }
  cbn [step]. unfold video_elements, modals.
  destruct (selectedVideo s) eqn:E; simpl; rewrite ?E; done.
Qed.

Lemma evidence_modal_holds_one_witness :
  let s := (run ∅ Sample.archive_loaded [ReviewClicked 0; ReviewClicked 1]).1 in
  (filename <$> selectedVideo s) = Some "v7.mp4" /\
  List.length (video_elements s) = 1.
Proof.
  destruct (evidence_modal_holds_one ∅ Sample.archive_loaded)
    as (_ & _ & _ & H & _).
  destruct (H 0 1 _ _ eq_refl eq_refl) as [H1 H2].
  split; [by rewrite H1 | by rewrite H2].
Defined.

End Evidence.

(** ** C10: rendering the feed leaves the snapshot alone *)

Section Feed.
Import LiveMonitor.

Lemma slice_spec {A} (h : gmap JsArray.loc (list A)) a xs :
  h !! a = Some xs ->
  exists b, JsArray.slice h a = Some (<[b := xs]> h, b) /\ h !! b = None.
Proof.
  intros Ha. unfold JsArray.slice. rewrite Ha.
  exists (fresh (dom h)). split; [done |].
  apply not_elem_of_dom, is_fresh.
Qed.

(** [reverse] writes to the array it is called on. *)
Lemma reverse_in_place {A} (h : gmap JsArray.loc (list A)) a xs :
  h !! a = Some xs ->
  exists h', JsArray.reverse h a = Some (h', a) /\ h' !! a = Some (rev xs).
Proof.
  intros Ha. unfold JsArray.reverse. rewrite Ha.
  eexists. split; [done |]. apply lookup_insert_eq.
Qed.

(** C10: rendering the live feed of a snapshot whose recent violations
    are the array [xs] succeeds; it shows the entries of [xs] in reverse
    order (or the placeholder when [xs] is empty); afterwards the array of
    the snapshot is still [xs], and so is every array that existed
    before: only the copy made by [slice] was reversed. *)
Theorem render_keeps_recent_violations
    (h : gmap JsArray.loc (list RecentViolation)) (stats : StatsObj)
    (xs : list RecentViolation) :
  h !! o_recent_violations stats = Some xs ->
  exists h' r,
    render h stats = Some (h', r) /\
    feed r = (match xs with
              | [] => Scanning
              | _ :: _ => Cards (imap (fun i v => card v i) (rev xs))
              end) /\
    h' !! o_recent_violations stats = Some xs /\
    load h' stats = load h stats /\
    (forall a ys, h !! a = Some ys -> h' !! a = Some ys).
Proof.
  intros Ha. unfold render, JsArray.length. rewrite Ha. simpl.
  destruct xs as [|x xs'].
  { eexists _, _. split; [done |]. simpl. by repeat split. }
  simpl List.length. cbv iota.
  destruct (slice_spec h _ _ Ha) as (b & -> & Hb).
  assert (Hne : b <> o_recent_violations stats) by congruence.
  unfold JsArray.reverse, JsArray.map. rewrite lookup_insert_eq.
  rewrite lookup_insert_eq. simpl.
  eexists _, _. split; [done |]. simpl. split; [done |].
  rewrite insert_insert_eq.
  assert (Hkeep : forall zs a ys, h !! a = Some ys ->
            <[b := zs]> h !! a = Some ys).
  { intros zs a ys Hy. rewrite lookup_insert_ne; [done | congruence]. }
  split; [by apply Hkeep |]. split; [| apply Hkeep].
  unfold load. by rewrite (Hkeep _ _ _ Ha), Ha.
Qed.

Lemma render_keeps_recent_violations_witness :
  let h : gmap JsArray.loc (list RecentViolation) :=
    {[ 0 := Sample.recent_pair ]} in
  let stats := {| o_in_count := 5; o_out_count := 3; o_total_violations := 2;
                  o_recent_violations := 0; o_scene_type := None |} in
  exists h' r, render h stats = Some (h', r) /\
    (exists c1 c2, feed r = Cards [c1; c2] /\
       card_vehicle c1 = 7 /\ card_vehicle c2 = 42) /\
    (map tracker_id <$> h' !! 0) = Some [42; 7] /\
    (exists h1, JsArray.reverse h 0 = Some (h1, 0) /\
       (map tracker_id <$> h1 !! 0) = Some [7; 42]).
Proof.
  intros h stats.
  assert (Ha : h !! o_recent_violations stats = Some Sample.recent_pair)
    by (vm_compute; reflexivity).
  destruct (render_keeps_recent_violations h stats _ Ha)
    as (h' & r & H1 & H2 & _ & _ & H3).
  destruct (reverse_in_place h 0 _ Ha) as (h1 & R1 & R2).
  exists h', r. split; [exact H1 |]. split.
  { rewrite H2. simpl. by eexists _, _. }
  split; [exact (f_equal (fmap (map tracker_id)) (H3 0 _ Ha)) |].
  exists h1. split; [exact R1 |].
  exact (f_equal (fmap (map tracker_id)) R2).
Defined.

End Feed.

(** ** C9: the credential is installed before any request *)

Section Credential.
Import Inv.
















End Credential.

(* ================================================================== *)
(** * More properties of the code *)
(* ================================================================== *)

(** ** api.js: the header written by [setAuthToken] *)

Section AuthHeader.

(** X1: [setAuthToken] writes the [Authorization] entry and nothing else:
    every other header is kept; the entry is [Bearer] followed by the
    token for a token that is not empty, and it is removed for [null] and
    for the empty token alike; what an earlier call wrote is forgotten:
    two calls in a row leave the headers the second call alone leaves. *)
Theorem setAuthToken_last_call_wins
    (t1 t2 : option string) (common : gmap string string) :
  (forall k, k <> "Authorization" ->
     Api.setAuthToken t1 common !! k = common !! k) /\
  (forall t, Api.truthy t = true ->
     Api.setAuthToken (Some t) common !! "Authorization"
     = Some ("Bearer " +:+ t)) /\
  Api.setAuthToken (Some "") common = Api.setAuthToken None common /\
  Api.setAuthToken None common !! "Authorization" = None /\
  Api.setAuthToken t2 (Api.setAuthToken t1 common) = Api.setAuthToken t2 common.
Proof.
  split.
  { intros k Hk. unfold Api.setAuthToken.
    destruct t1 as [t|]; [destruct (Api.truthy t) |];
      by rewrite ?lookup_insert_ne, ?lookup_delete_ne. }
  split.
  { intros t Ht. unfold Api.setAuthToken. rewrite Ht. apply lookup_insert_eq. }
  split; [reflexivity |].
  split; [apply lookup_delete_eq |].
  unfold Api.setAuthToken.
  destruct t1 as [a|], t2 as [b|];
    try destruct (Api.truthy a); try destruct (Api.truthy b);
    by rewrite ?insert_insert_eq, ?insert_delete_eq, ?delete_insert_eq,
               ?delete_delete_eq.
Qed.

Lemma setAuthToken_last_call_wins_witness :
  Api.setAuthToken (Some "t2") (Api.setAuthToken (Some "t1") {[ "Accept" := "json" ]})
    !! "Authorization" = Some "Bearer t2" /\
  Api.setAuthToken (Some "t1") {[ "Accept" := "json" ]} !! "Accept" = Some "json".
Proof.
  destruct (setAuthToken_last_call_wins (Some "t1") (Some "t2")
              {[ "Accept" := "json" ]}) as (Hk & Ht & _ & _ & H2).
  split.
  - rewrite H2. by apply Ht.
  - rewrite Hk by done. by vm_compute.
Defined.

End AuthHeader.

(** ** App.jsx: the role check is a search for a factor *)

Section RoleFactor.
Import Nav.

Lemma append_assoc (a b c : string) : (a +:+ b) +:+ c = a +:+ (b +:+ c).
Proof.
  induction a as [|x a IH]; [done |].
  change (String x ((a +:+ b) +:+ c) = String x (a +:+ b +:+ c)).
  by rewrite IH.
Qed.

Lemma lower_ascii_idemp c : Js.lower_ascii (Js.lower_ascii c) = Js.lower_ascii c.
Proof. destruct c as [[] [] [] [] [] [] [] []]; reflexivity. Qed.

Lemma toLowerCase_idemp s : Js.toLowerCase (Js.toLowerCase s) = Js.toLowerCase s.
Proof.
  induction s as [|c s IH]; simpl; [done |]. by rewrite lower_ascii_idemp, IH.
Qed.

(** X2: the derived role depends on the lower-cased email only, and the
    marker is looked for anywhere in it: an email that has, as a factor, an
    email that gives admin gives admin too, whatever stands before and
    after (also in the domain part). *)
Theorem derive_role_factor (pre e post : string) :
  derive_role (Some (Js.toLowerCase e)) = derive_role (Some e) /\
  (derive_role (Some e) = admin ->
   derive_role (Some (pre +:+ e +:+ post)) = admin).
Proof.
  split.
  { unfold derive_role. by rewrite toLowerCase_idemp. }
  unfold derive_role.
  destruct (Js.includes admin_marker (Js.toLowerCase e)) eqn:He; [| done].
  intros _. apply includes_spec in He as (a & b & Hab).
  assert (Hin : Js.includes admin_marker
                  (Js.toLowerCase (pre +:+ e +:+ post)) = true).
  { apply includes_spec. rewrite !toLowerCase_app, Hab.
    exists (Js.toLowerCase pre +:+ a), (b +:+ Js.toLowerCase post).
    by rewrite !append_assoc. }
  by rewrite Hin.
Qed.

Lemma derive_role_factor_witness :
  derive_role (Some "op@ADMIN-tools.co.com") = admin.
Proof.
  exact (proj2 (derive_role_factor "op@" "ADMIN" "-tools.co.com") eq_refl).
Defined.

End RoleFactor.

(** ** App.jsx: the auth listener *)

Section AuthListener.
Import Nav App MoreInv.

Lemma role_inv_step s ev : role_inv s -> role_inv (step s ev).1.
Proof.
  unfold role_inv. intros Hs.
  destruct ev as [[u|] | k token | k | | data | e | k | ]; simpl;
    repeat (case_match; simpl); by simplify_eq.
Qed.

(** X3: in every state the role is the one derived from the email of the
    user present, and operator when no user is present: signing out takes
    the admin role away, and nothing but the auth listener changes it. *)
Theorem role_follows_user (s : State) :
  reachable s ->
  role s = match user s with
           | Some u => derive_role (email u)
           | None => operator
           end /\
  (forall ev, role (step s ev).1 <> role s ->
     ev = AuthStateChanged None \/
     exists k token, ev = IdTokenResolved k token).
Proof.
  intros Hs. split.
  - revert s Hs.
    apply (reachable_preserves role_inv); [reflexivity | apply role_inv_step].
  - intros ev.
    destruct ev as [[u|] | k token | k | | data | e | k | ]; simpl;
      repeat case_match; simpl; intros Hne; try (by destruct Hne); eauto.
Qed.

Lemma role_follows_user_witness :
  role (run init (take 4 Sample.operator_after_admin)).1 = operator.
Proof.
  apply (proj1 (role_follows_user
                  (run init (take 4 Sample.operator_after_admin)).1
                  (ex_intro _ (take 4 Sample.operator_after_admin) eq_refl))).
Defined.

Lemma loading_inv_step s ev : loading_inv s -> loading_inv (step s ev).1.
Proof.
  unfold loading_inv. intros Hs.
  destruct ev as [[u|] | k token | k | | data | e | k | ]; simpl;
    repeat (case_match; simpl); try done; intros Hl;
    try (destruct (Hs Hl) as (? & ? & ? & ? & ? & ? & ?);
         first [congruence | by repeat split]).
  all: unfold renders_main in *; rewrite Hl in *; discriminate.
Qed.

(** X4: the spinner is shown exactly while [loading] holds; as long as it
    is shown, no user, [Authorization] header, timer or poll exists and the
    tab and the snapshot are the initial ones; it goes away only when a
    listener call runs to its end (a sign-out notification, or a token
    exchange that succeeds), never when a token exchange fails, and it
    never comes back. *)
Theorem spinner_until_listener_completes (s : State) :
  reachable s ->
  (Shell.render s = Shell.Spinner <-> loading s = true) /\
  (loading s = true ->
     user s = None /\ role s = operator /\ activeTab s = "live" /\
     stats s = stats init /\ common s !! "Authorization" = None /\
     interval s = None /\ fetching s = 0) /\
  (forall ev, loading s = true -> loading (step s ev).1 = false ->
     ev = AuthStateChanged None \/
     exists k token, ev = IdTokenResolved k token /\ is_Some (exchanging s !! k)) /\
  (forall k, loading (step s (IdTokenRejected k)).1 = loading s) /\
  (forall ev, loading s = false -> loading (step s ev).1 = false).
Proof.
  intros Hs.
  assert (Hinv : loading_inv s).
  { revert s Hs. apply reachable_preserves; [| apply loading_inv_step].
    intros _. by repeat split. }
  split.
  { unfold Shell.render. destruct (loading s); [done |].
    destruct (user s); split; discriminate. }
  split.
  { intros Hl. destruct (Hinv Hl) as (H1 & H2 & H3 & H4 & H5 & H6 & H7).
    rewrite H5. by repeat split. }
  split.
  { intros ev Hl Hl'.
    destruct ev as [[u|] | k token | k | | data | e | k | ];
      [ simpl in Hl'; congruence
      | by left
      | right; exists k, token; split; [done |];
        simpl in Hl'; destruct (exchanging s !! k);
        [eauto | simpl in Hl'; congruence]
      | exfalso; simpl in Hl'; repeat case_match; simpl in *; congruence .. ]. }
  split.
  { intros k. simpl. by destruct (exchanging s !! k). }
  intros ev Hl.
  destruct ev as [[u|] | k token | k | | data | e | k | ]; simpl;
    repeat (case_match; simpl); done.
Qed.

Lemma spinner_until_listener_completes_witness :
  let s := (run init [AuthStateChanged (Some Sample.admin_user);
                      IdTokenRejected 0]).1 in
  Shell.render s = Shell.Spinner /\ user s = None.
Proof.
  assert (Hr : reachable (run init [AuthStateChanged (Some Sample.admin_user);
                                    IdTokenRejected 0]).1)
    by (by eexists).
  destruct (spinner_until_listener_completes _ Hr) as (H1 & H2 & _).
  split; [by apply H1 |]. exact (proj1 (H2 eq_refl)).
Defined.

(** X5: a sign-out notification does not cancel a token exchange that is
    still pending. When a sign-in notification is followed by a sign-out
    notification, the state is signed out (no user, no timer); when the
    exchange of the first notification then resolves, its user is
    installed with the role of its email, the token is installed and the
    polling timer is set again. *)
Theorem sign_out_keeps_pending_exchange (s : State) (u : User) (token : string) :
  let s1 := (step s (AuthStateChanged (Some u))).1 in
  let s2 := (step s1 (AuthStateChanged None)).1 in
  let r := step s2 (IdTokenResolved (List.length (exchanging s)) token) in
  user s2 = None /\ interval s2 = None /\
  user r.1 = Some u /\ role r.1 = derive_role (email u) /\
  interval r.1 = Some 1000 /\
  r.2 = [CallSetAuthToken (Some token)].
Proof.
  simpl. rewrite list_lookup_middle by done. simpl. by repeat split.
Qed.

End AuthListener.

(** ** App.jsx: the polling effect keeps no count of its polls *)

Section PollAccounting.
Import Nav App.

(** X6: along every run, each poll that was sent is accounted for exactly
    once: it is still in flight, or its answer was applied to the
    snapshot, or its failure was logged. The timer does not wait for an
    answer: [n] ticks in a row while the timer is set leave [n] more polls
    in flight. *)
Theorem every_poll_is_accounted_for (s : State) (evs : list Event) :
  (fetching (run s evs).1 + updates s evs
     + List.length (List.filter is_console_error (run s evs).2)
   = fetching s + List.length (List.filter is_request (run s evs).2)) /\
  (forall n, is_Some (interval s) ->
     fetching (run s (replicate n IntervalFired)).1 = fetching s + n).
Proof.
  split.
  - apply accounting_run.
  - intros n [p Hp]. clear evs. revert s Hp.
    induction n as [|n IH]; intros s Hp; [simpl; lia |].
    change (replicate (S n) IntervalFired) with
      (IntervalFired :: replicate n IntervalFired).
    rewrite run_cons. cbn [fst]. rewrite IH.
    + simpl. rewrite Hp. simpl. lia.
    + simpl. by rewrite Hp.
Qed.

Lemma every_poll_is_accounted_for_witness :
  let s := (run init (take 2 Sample.late_response)).1 in
  fetching (run s (replicate 3 IntervalFired)).1 = 3.
Proof.
  exact (proj2 (every_poll_is_accounted_for
                  (run init (take 2 Sample.late_response)).1 [])
           3 (ex_intro _ 1000 eq_refl)).
Defined.

End PollAccounting.

(** ** App.jsx: the main layout *)

Section MainLayout.
Import Nav App Inv Shell.

(** X7: when the main layout is rendered, the view area holds exactly one
    view, the header title is the identifier of the active tab as it is
    (no identifier has a hyphen to replace), and at most one button of the
    sidebar is highlighted: exactly one when the active tab is among the
    views of the role, none otherwise. *)
Theorem main_layout_shows_one_view (s : State) (m : MainLayout) :
  reachable s -> render s = Main m ->
  List.length (area m) = 1 /\
  title m = activeTab s /\
  counters m = header s /\
  List.length (List.filter nb_active (nav m)) <= 1 /\
  (List.length (List.filter nb_active (nav m)) = 1 <->
   In (activeTab s) (visible_views (role s))).
Proof.
  intros Hs Hm. destruct (app_inv_reachable s Hs) as [Htab _].
  unfold render in Hm. destruct (loading s) eqn:Hl; [discriminate |].
  destruct (user s) as [u|] eqn:Hu; [| discriminate].
  injection Hm as <-. cbn [area title counters nav].
  unfold view_area, renders_main. rewrite Hl, Hu.
  simpl in Htab.
  destruct (role s);
    destruct Htab as [<- | [<- | [<- | []]]]; vm_compute;
    repeat split; try lia; try tauto;
    try (intros [H | [H | H]]; (discriminate H || destruct H)).
  all: try (intros; lia).
  all: try (intros H; discriminate H).
Qed.

Lemma main_layout_shows_one_view_witness :
  exists m, render (run init Sample.operator_after_admin).1 = Main m /\
    List.length (area m) = 1 /\ title m = "settings" /\
    List.length (List.filter nb_active (nav m)) = 0.
Proof.
  eexists. split; [reflexivity |].
  assert (Hr : reachable (run init Sample.operator_after_admin).1)
    by (by exists Sample.operator_after_admin).
  destruct (main_layout_shows_one_view _ _ Hr eq_refl) as (H1 & H2 & _).
  split; [exact H1 |]. split; [exact H2 | reflexivity].
Defined.

End MainLayout.

(** ** What [split] shows: the name in the sidebar and the time of a card *)

Section SplitFields.
Import Shell LiveMonitor.

Lemma split_nonempty sep s : Js.split sep s <> [].
Proof.
  destruct s as [|c s]; simpl; [done |].
  destruct (Ascii.eqb c sep); [done |]. by destruct (Js.split sep s).
Qed.

(** A string without the separator is one field. *)
Lemma split_without sep s :
  Js.includes (String sep "") s = false -> Js.split sep s = [s].
Proof.
  induction s as [|c s IH]; [done |].
  simpl. intros H. apply orb_false_iff in H as [H1 H2].
  rewrite andb_true_r in H1. rewrite Ascii.eqb_sym in H1. rewrite H1.
  by rewrite IH.
Qed.

(** The first field ends at the first separator. *)
Lemma split_first sep a b :
  Js.includes (String sep "") a = false ->
  Js.split sep (a +:+ String sep b) = a :: Js.split sep b.
Proof.
  induction a as [|c a IH].
  - intros _. change (Js.split sep (String sep b) = "" :: Js.split sep b).
    simpl. by rewrite Ascii.eqb_refl.
  - simpl. intros H. apply orb_false_iff in H as [H1 H2].
    rewrite andb_true_r in H1. rewrite Ascii.eqb_sym in H1.
    change (Js.split sep (String c (a +:+ String sep b))
            = String c a :: Js.split sep b).
    simpl. rewrite H1, IH by done. done.
Qed.

(** X8: the name shown in the sidebar is the part of the email before the
    first [@]; an email without [@] is shown whole, and for a user without
    an email nothing is shown. *)
Theorem sidebar_name_is_local_part (u : App.User) (e name rest : string) :
  (App.email u = None -> sidebar_name u = None) /\
  (App.email u = Some e -> Js.includes "@" e = false ->
     sidebar_name u = Some e) /\
  (App.email u = Some (name +:+ "@" +:+ rest) ->
     Js.includes "@" name = false -> sidebar_name u = Some name).
Proof.
  unfold sidebar_name. split; [by intros -> |].
  split.
  - intros -> He. by rewrite split_without.
  - intros -> Hn. change ("@" +:+ rest) with (String "@" rest).
    by rewrite (split_first "@" name rest Hn).
Qed.

Lemma sidebar_name_is_local_part_witness :
  sidebar_name Sample.operator_user = Some "op".
Proof.
  exact (proj2 (proj2 (sidebar_name_is_local_part
                         Sample.operator_user "" "op" "co.com"))
           eq_refl eq_refl).
Defined.

(** X9: the time shown on a card of the live feed is the second field of
    the timestamp, split at underscores: for a timestamp made of a date, an
    underscore and a time without underscore it is the time; for a
    timestamp without underscore there is no second field and nothing is
    shown. *)
Theorem card_time_is_second_field (v : RecentViolation) (i : nat)
    (date time : string) :
  (Js.includes "_" (timestamp v) = false -> card_time (card v i) = None) /\
  (timestamp v = date +:+ "_" +:+ time ->
     Js.includes "_" date = false -> Js.includes "_" time = false ->
     card_time (card v i) = Some time).
Proof.
  unfold card. cbn [card_time]. split.
  - intros H. by rewrite split_without.
  - intros -> Hd Ht. change ("_" +:+ time) with (String "_" time).
    by rewrite (split_first "_" date time Hd), split_without.
Qed.

Lemma card_time_is_second_field_witness :
  card_time (card {| rv_type := "speeding"; tracker_id := 42;
                     timestamp := "2024-01-01_12:00:00" |} 0)
  = Some "12:00:00".
Proof.
  exact (proj2 (card_time_is_second_field
                  {| rv_type := "speeding"; tracker_id := 42;
                     timestamp := "2024-01-01_12:00:00" |} 0
                  "2024-01-01" "12:00:00")
           eq_refl eq_refl eq_refl).
Defined.

End SplitFields.

(** ** CamSettings.jsx: [handleSwitch] *)

Section SourceSwitch.
Import CamSettings.

Lemma switched_sources_app out1 out2 :
  switched_sources (out1 ++ out2) =
  (switched_sources out1 ++ switched_sources out2)%list.
Proof. apply omap_app. Qed.

Lemma switched_sources_step hdrs s ev :
  Forall (fun src => In src (List.map source presets))
         (switched_sources (step hdrs s ev).2).
Proof.
  destruct ev as [[ | [|f fs] | | k | k | ] | [k | k | k]]; simpl;
    repeat (case_match; simpl); try by constructor.
  constructor; [| constructor].
  match goal with
  | |- context [source ?p] => change (In (source p) (List.map source presets))
  end.
  apply in_map, list_elem_of_In. by eapply list_elem_of_lookup_2.
Qed.

(** X10: the source sent with [POST /switch_camera] is always one of the
    three presets, in every run of the settings view from every state; and
    switch requests are not serialized: a click on a preset sends its
    request in every state, also while an upload or another switch is
    pending, so a row of clicks sends one request per click, in order. *)
Theorem switch_sends_presets_only
    (hdrs : gmap string string) (s : State) (evs : list Event) (ks : list nat) :
  Forall (fun src => In src (List.map source presets))
         (switched_sources (run hdrs s evs).2) /\
  switched_sources
    (run hdrs s (List.map (fun k => Switch (PresetClicked k)) ks)).2
  = omap (fun k => source <$> presets !! k) ks.
Proof.
  split.
  - revert s. induction evs as [|ev evs IH]; intros s; [constructor |].
    unfold run. rewrite run_with_cons. cbn [snd].
    rewrite switched_sources_app. apply Forall_app. split.
    + apply switched_sources_step.
    + apply IH.
  - revert s. induction ks as [|k ks IH]; intros s; [done |].
    cbn [List.map]. unfold run. rewrite run_with_cons. cbn [snd].
    rewrite switched_sources_app. fold (run hdrs). rewrite IH.
    simpl. by destruct (presets !! k).
Qed.

(** X11: a switch event either reloads the page, which happens exactly
    when a pending switch request succeeds (the alert comes first, and an
    upload in progress is dropped with the rest of the state), or leaves
    the upload as it is (status, flag, file chooser, pending request and
    timer) and reloads nothing; a switch request that fails shows the
    alert [Failed to switch camera.] and nothing else. *)
Theorem switch_reloads_on_success_only
    (hdrs : gmap string string) (s : State) (ev : SwitchEvent) :
  let r := step_switch hdrs s ev in
  ((exists k src, ev = SwitchResolved k /\ switches s !! k = Some src /\
      r = (init, [Alert ("Switched to " +:+ src +:+ ". Stream will restart shortly.");
                  Reload])) \/
   (uploadStatus r.1 = uploadStatus s /\ isUploading r.1 = isUploading s /\
    chooser r.1 = chooser s /\ uploads r.1 = uploads s /\
    timers r.1 = timers s /\ ~ In Reload r.2)) /\
  (forall k, ev = SwitchRejected k -> is_Some (switches s !! k) ->
     r.2 = [Alert "Failed to switch camera."] /\
     switches r.1 = delete k (switches s)).
Proof.
  destruct ev as [k | k | k]; simpl.
  - split; [| by intros ? ?]. right.
    destruct (presets !! k); simpl; repeat split; try done;
      intuition discriminate.
  - split; [| by intros ? ?].
    destruct (switches s !! k) as [src|] eqn:E; simpl.
    + left. by exists k, src.
    + right. repeat split; try done. intuition discriminate.
  - split.
    + right. destruct (switches s !! k); simpl; repeat split; try done;
        intuition discriminate.
    + intros k' [= <-] [src Hsrc]. by rewrite Hsrc.
Qed.

Lemma switch_reloads_on_success_only_witness :
  let s := (run ∅ init (Sample.one_upload ++ [Switch (PresetClicked 1)])).1 in
  (step_switch ∅ s (SwitchRejected 0)).2 = [Alert "Failed to switch camera."] /\
  isUploading (step_switch ∅ s (SwitchRejected 0)).1 = true.
Proof.
  intros s.
  destruct (switch_reloads_on_success_only ∅ s (SwitchRejected 0)) as [_ H].
  split; [exact (proj1 (H 0 eq_refl (ex_intro _ "parking2.mp4" eq_refl))) |].
  reflexivity.
Defined.

End SourceSwitch.

(** ** ViolationArchive.jsx: [loadArchive] and the cards *)

Section ArchiveListing.
Import ViolationArchive MoreInv.

Lemma violations_step hdrs s ev :
  (forall data, ev <> ViolationsResolved data) ->
  violations (step hdrs s ev).1 = violations s.
Proof.
  intros Hev. destruct ev as [ | data | e | k | ]; simpl;
    repeat (case_match; simpl); try done.
  all: by destruct (Hev data).
Qed.

Lemma violations_run hdrs evs : forall s,
  Forall (fun ev => forall data, ev <> ViolationsResolved data) evs ->
  violations (run hdrs s evs).1 = violations s.
Proof.
  induction evs as [|ev evs IH]; intros s Hevs; [done |].
  inversion Hevs as [|? ? Hev Hevs']; subst.
  unfold run. rewrite run_with_cons. cbn [fst]. fold (run hdrs).
  rewrite IH by done. by apply violations_step.
Qed.

(** X12: the listing of the archive is the body of the last answer that
    arrived, whatever was requested or shown before and whatever other
    events followed: answers are applied in the order they arrive, not in
    the order of the requests. A request that fails keeps the listing
    there was, logs the error and ends the loading state. *)
Theorem archive_listing_is_last_response (hdrs : gmap string string) :
  (forall s evs data evs',
     loads (run hdrs s evs).1 <> 0 ->
     Forall (fun ev => forall d, ev <> ViolationsResolved d) evs' ->
     violations (run hdrs s (evs ++ ViolationsResolved data :: evs')).1 = data) /\
  (forall s e, loads s <> 0 ->
     let r := step hdrs s (ViolationsRejected e) in
     violations r.1 = violations s /\ r.2 = [ConsoleError e] /\
     loading r.1 = false).
Proof.
  split.
  - intros s evs data evs' Hl Hevs'.
    unfold run. rewrite run_with_app. cbn [fst]. rewrite run_with_cons.
    cbn [fst]. fold (run hdrs). rewrite violations_run by done.
    simpl. fold (run hdrs). by destruct (loads (run hdrs s evs).1).
  - intros s e Hl. simpl. by destruct (loads s).
Qed.

Lemma archive_listing_is_last_response_witness :
  violations
    (run ∅ (mount ∅).1
       ([RefreshClicked; ViolationsResolved []] ++
        ViolationsResolved Sample.archive :: [ReviewClicked 0])).1
  = Sample.archive.
Proof.
  apply (proj1 (archive_listing_is_last_response ∅) (mount ∅).1
           [RefreshClicked; ViolationsResolved []] Sample.archive
           [ReviewClicked 0]).
  - vm_compute. discriminate.
  - repeat constructor; discriminate.
Defined.

Lemma archive_inv_step hdrs s ev : archive_inv s -> archive_inv (step hdrs s ev).1.
Proof.
  unfold archive_inv. intros Hs.
  destruct ev as [ | data | e | k | ]; simpl;
    repeat (case_match; simpl); intros Hl;
    first [done | lia | by apply Hs | (specialize (Hs Hl); congruence)].
Qed.

(** X13: the skeleton of the archive is shown only while a request is
    pending. The refresh button is not guarded: in every state it sends a
    new request and shows the skeleton. The first answer to arrive (or
    failure) hides the skeleton even when further requests are pending, so
    the listing can still change afterwards without a skeleton. *)
Theorem archive_skeleton_needs_a_request
    (hdrs : gmap string string) (s : State) :
  archive_reachable s ->
  (loading s = true -> loads s <> 0) /\
  (let r := step hdrs s RefreshClicked in
   r.2 = [HttpGet "/violations" hdrs] /\ loading r.1 = true /\
   loads r.1 = S (loads s)) /\
  (forall data, 2 <= loads s ->
     let s' := (step hdrs s (ViolationsResolved data)).1 in
     loading s' = false /\ loads s' <> 0).
Proof.
  intros (h & evs & <-). split.
  { apply (run_with_preserves (step h) archive_inv).
    - apply archive_inv_step.
    - intros _. simpl. discriminate. }
  split; [done |].
  intros data Hl. simpl.
  destruct (loads _) as [|[|n]]; simpl; [lia | lia | done].
Qed.

Lemma archive_skeleton_needs_a_request_witness :
  let s := (step ∅ (mount ∅).1 RefreshClicked).1 in
  let s' := (step ∅ s (ViolationsResolved Sample.archive)).1 in
  loading s' = false /\ loads s' <> 0.
Proof.
  intros s s'.
  assert (Hr : archive_reachable s) by (by exists ∅, [RefreshClicked]).
  destruct (archive_skeleton_needs_a_request ∅ s Hr) as (_ & _ & H).
  apply (H Sample.archive). vm_compute. lia.
Defined.

(** X14: Review Evidence opens a card that is listed and nothing else:
    while the listing is loading, and for an index past its end, the click
    changes nothing. Requests for the listing and their answers never
    change the selection, so the modal stays open while the listing is
    reloaded, whether or not the new listing still has the violation
    shown. *)
Theorem review_opens_listed_cards_only
    (hdrs : gmap string string) (s : State) (k : nat) :
  (loading s = true \/ List.length (violations s) <= k ->
     step hdrs s (ReviewClicked k) = (s, [])) /\
  (forall v, loading s = false -> violations s !! k = Some v ->
     selectedVideo (step hdrs s (ReviewClicked k)).1 = Some v) /\
  selectedVideo (step hdrs s RefreshClicked).1 = selectedVideo s /\
  (forall data,
     selectedVideo (step hdrs s (ViolationsResolved data)).1 = selectedVideo s) /\
  (forall e,
     selectedVideo (step hdrs s (ViolationsRejected e)).1 = selectedVideo s).
Proof.
  split.
  { intros H. simpl. unfold cards.
    destruct (loading s); [done |].
    destruct H as [H | H]; [discriminate |].
    apply lookup_ge_None in H. by rewrite H. }
  split.
  { intros v Hl Hv. simpl. unfold cards. by rewrite Hl, Hv. }
  split; [done |].
  split; intros ?; simpl; by destruct (loads s).
Qed.

Lemma review_opens_listed_cards_only_witness :
  step ∅ Sample.archive_loaded (ReviewClicked 2) = (Sample.archive_loaded, []) /\
  (filename <$> selectedVideo (step ∅ Sample.archive_loaded (ReviewClicked 1)).1)
  = Some "v7.mp4".
Proof.
  split.
  - apply (proj1 (review_opens_listed_cards_only ∅ Sample.archive_loaded 2)).
    right. vm_compute. lia.
  - destruct (review_opens_listed_cards_only ∅ Sample.archive_loaded 1)
      as (_ & H & _).
    by rewrite (H _ eq_refl eq_refl).
Defined.

End ArchiveListing.

(** ** Login.jsx: the sign-in form *)

Section SignIn.
Import Login MoreInv.

Lemma login_run_cons s ev evs :
  run s (ev :: evs) =
  ((run (step s ev).1 evs).1, ((step s ev).2 ++ (run (step s ev).1 evs).2)%list).
Proof.
  simpl. destruct (step s ev) as [s1 o1]. simpl.
  by destruct (run s1 evs) as [s2 o2].
Qed.

Lemma login_inv_step s ev : login_inv s -> login_inv (step s ev).1.
Proof.
  intros Hs. destruct s as [em pw er ld ats].
  destruct Hs as [[Hl Ha] | [Hl Ha]]; simpl in *; subst.
  - destruct ats as [|a [|b ats]]; try discriminate Ha.
    destruct ev as [v | v | ok | | [|k] | [|k] err]; simpl;
      try (by left); try (by right).
    destruct a; by right.
  - destruct ev as [v | v | ok | | k | k err]; simpl;
      try (by right).
    + unfold can_submit. simpl.
      destruct (Api.truthy em && Api.truthy pw && ok); simpl;
        [by left | by right].
    + by left.
Qed.

Lemma login_inv_reachable s : reachable s -> login_inv s.
Proof.
  intros [evs <-]. generalize init, (or_intror (conj eq_refl eq_refl) : login_inv init).
  induction evs as [|ev evs IH]; intros s Hs; [done |].
  rewrite login_run_cons. cbn [fst]. apply IH. by apply login_inv_step.
Qed.

(** X15: the sign-in form has at most one sign-in call pending, and
    [loading] holds exactly while one is. While it holds, submitting the
    form and clicking the Google button do nothing. When it does not hold,
    submitting the form with both fields filled (and an email the browser
    accepts) makes one [signInWithEmailAndPassword] call with the email
    and the password of the fields, and submitting with an empty field
    makes none. *)
Theorem one_sign_in_at_a_time (s : State) :
  reachable s ->
  List.length (attempts s) <= 1 /\
  (loading s = true <-> attempts s <> []) /\
  (loading s = true ->
     (forall ok, step s (FormSubmitted ok) = (s, [])) /\
     step s GoogleClicked = (s, [])) /\
  (loading s = false -> email s <> "" -> password s <> "" ->
     (step s (FormSubmitted true)).2
     = [SignInWithEmailAndPassword (email s) (password s)]) /\
  (loading s = false -> email s = "" \/ password s = "" ->
     forall ok, step s (FormSubmitted ok) = (s, [])).
Proof.
  intros Hs. apply login_inv_reachable in Hs.
  assert (Ht : forall x, x <> "" -> Api.truthy x = true).
  { intros x Hx. unfold Api.truthy. apply negb_true_iff.
    by apply String.eqb_neq. }
  destruct s as [em pw er ld ats].
  destruct Hs as [[Hl Ha] | [Hl Ha]]; simpl in *; subst.
  - destruct ats as [|a [|b ats]]; try discriminate Ha.
    repeat split; try done; simpl; lia.
  - split; [simpl; lia |]. split; [split; [discriminate | done] |].
    split; [discriminate |]. split.
    + intros _ He Hp. unfold can_submit. simpl. by rewrite !Ht.
    + intros _ [-> | ->] ok; unfold can_submit; simpl; [done |].
      by rewrite andb_false_r.
Qed.

Lemma one_sign_in_at_a_time_witness :
  (step MoreSample.form_filled (FormSubmitted true)).2
  = [SignInWithEmailAndPassword "op@co.com" "secret"].
Proof.
  assert (Hr : reachable MoreSample.form_filled) by (by eexists).
  destruct (one_sign_in_at_a_time _ Hr) as (_ & _ & _ & H & _).
  by apply H.
Defined.

Lemma google_error_truthy err : Api.truthy (google_error err) = true.
Proof.
  unfold google_error. destruct (String.eqb _ _); [done |].
  destruct (message err) as [m|]; [| done].
  by destruct (Api.truthy m) eqn:E.
Qed.

Lemma failed_sign_in_error
    (s : State) (k : nat) (a : Attempt) (err : AuthError) :
  reachable s -> attempts s !! k = Some a ->
  let r := step s (SignInRejected k err) in
  loading r.1 = false /\ attempts r.1 = [] /\
  email r.1 = email s /\ password r.1 = password s /\
  error_box r.1 = Some (error r.1) /\
  (a = PasswordAttempt -> error r.1 = msg_invalid /\ r.2 = [LogError None]) /\
  (a = GoogleAttempt ->
     r.2 = [LogError (Some "Google Auth Error:")] /\
     (code err = "auth/popup-blocked" -> error r.1 = msg_popup) /\
     (code err <> "auth/popup-blocked" ->
        (forall m, message err = Some m -> m <> "" -> error r.1 = m) /\
        (message err = None \/ message err = Some "" -> error r.1 = msg_google))) /\
  error (step r.1 GoogleClicked).1 = "".
Proof.
  intros Hs Hk. apply login_inv_reachable in Hs.
  destruct s as [em pw er ld ats].
  destruct Hs as [[Hl Ha] | [Hl Ha]]; simpl in *; subst; [| done].
  destruct ats as [|a0 [|b ats]]; try discriminate Ha.
  destruct k as [|k]; [| done]. injection Hk as ->.
  destruct a; simpl.
  - repeat split; try done.
  - unfold error_box. cbn [error]. rewrite google_error_truthy.
    split; [done |]. split; [done |]. split; [done |]. split; [done |].
    split; [done |]. split; [done |]. split; [| done].
    intros _. split; [done |]. split.
    + intros Hc. unfold google_error. by rewrite Hc.
    + intros Hc. apply String.eqb_neq in Hc. unfold google_error. rewrite Hc.
      split.
      * intros m Hm Hne. rewrite Hm. unfold Api.truthy.
        apply String.eqb_neq in Hne. by rewrite Hne.
      * by intros [-> | ->].
Qed.

(** X16: a sign-in call that fails leaves the form ready for another
    attempt, with the fields as they were and an error box that is never
    empty: the fixed text for a password sign-in, whatever the error; for
    a Google sign-in the text about popups when the code is
    [auth/popup-blocked], else the message of the error, else the default
    text when the error has no message or an empty one. The next attempt,
    by the form or by the Google button, clears the error. *)
Theorem failed_sign_in_shows_error
    (s : State) (k : nat) (a : Attempt) (err : AuthError) :
  reachable s -> attempts s !! k = Some a ->
  let r := step s (SignInRejected k err) in
  loading r.1 = false /\ attempts r.1 = [] /\
  email r.1 = email s /\ password r.1 = password s /\
  error_box r.1 = Some (error r.1) /\
  (a = PasswordAttempt -> error r.1 = msg_invalid /\ r.2 = [LogError None]) /\
  (a = GoogleAttempt ->
     r.2 = [LogError (Some "Google Auth Error:")] /\
     (code err = "auth/popup-blocked" -> error r.1 = msg_popup) /\
     (code err <> "auth/popup-blocked" ->
        (forall m, message err = Some m -> m <> "" -> error r.1 = m) /\
        (message err = None \/ message err = Some "" -> error r.1 = msg_google))) /\
  error (step r.1 GoogleClicked).1 = "" /\
  (forall ok, can_submit r.1 ok = true ->
     error (step r.1 (FormSubmitted ok)).1 = "").
Proof.
  intros Hs Hk r.
  pose proof (failed_sign_in_error s k a err Hs Hk) as H. cbv zeta in H.
  fold r in H. destruct H as (H1 & H2 & H3 & H4 & H5 & H6 & H7 & H8).
  refine (conj H1 (conj H2 (conj H3 (conj H4 (conj H5 (conj H6
            (conj H7 (conj H8 _)))))))).
  intros ok Hok. cbn [step]. by rewrite Hok.
Qed.

Lemma failed_sign_in_shows_error_witness :
  let s := (step MoreSample.form_filled GoogleClicked).1 in
  error (step s (SignInRejected 0
                   {| code := "auth/network-request-failed";
                      message := Some "" |})).1
  = msg_google.
Proof.
  intros s.
  assert (Hr : reachable s)
    by (by exists [EmailChanged "op@co.com"; PasswordChanged "secret";
                   GoogleClicked]).
  destruct (failed_sign_in_shows_error s 0 GoogleAttempt
              {| code := "auth/network-request-failed"; message := Some "" |}
              Hr eq_refl) as (_ & _ & _ & _ & _ & _ & H & _).
  destruct (H eq_refl) as (_ & _ & H').
  apply H'; [discriminate | by right].
Defined.

End SignIn.

(** ** The page: which view is mounted *)

Section MountedView.
Import MoreInv.

Lemma reconcile_kind a c :
  kind (Page.reconcile a c).1.1 = head (App.view_area a).
Proof.
  unfold Page.reconcile.
  destruct (head (App.view_area a)) as [[]|]; destruct c; reflexivity.
Qed.

Lemma view_inv_step s ev : view_inv s -> view_inv (Page.step s ev).1.
Proof.
  unfold view_inv. intros Hs.
  destruct ev as [e | e | e | k ok e]; cbn [Page.step].
  - destruct (App.step (Page.app s) e) as [a out1].
    pose proof (reconcile_kind a (Page.child s)) as Hk.
    by destruct (Page.reconcile a (Page.child s)) as [[ch orphans] out2].
  - destruct (Page.child s) as [ | | st | st] eqn:Hc;
      try (cbn [fst]; by rewrite Hc).
    by destruct (ViolationArchive.step _ st e).
  - destruct (Page.child s) as [ | | st | st] eqn:Hc;
      try (cbn [fst]; by rewrite Hc).
    destruct (CamSettings.step _ st e) as [st' out].
    by destruct (Page.reloads out).
  - destruct (Page.strays s !! k) as [[ | | | src] | ]; destruct ok; done.
Qed.

Lemma view_inv_reachable s : Page.reachable s -> view_inv s.
Proof.
  intros [evs <-].
  apply (run_with_preserves Page.step view_inv);
    [apply view_inv_step | reflexivity].
Qed.

(** X17: a sign-out takes effect on the page when React commits it, not
    when the auth listener runs. The listener (called with no user) calls
    [setAuthToken(null)], so the Authorization header is gone, but the
    mounted view, the views' pending work, what is shown and the polling
    timer are as before: a tick before the commit still sends
    [GET /stats], without the header, and registers a pending poll. The
    commit unmounts the view (its pending continuations are left to run
    out), sends nothing and clears the timer; a tick after it does
    nothing. *)
Theorem sign_out_takes_effect_at_commit (s : Deferred.State) :
  let a := Page.app (Deferred.page s) in
  let h := Deferred.step s
             (Deferred.Handler (Page.AppEv (App.AuthStateChanged None))) in
  let a1 := Page.app (Deferred.page h.1) in
  let tick := Deferred.step h.1
                (Deferred.Handler (Page.AppEv App.IntervalFired)) in
  let c := Deferred.step h.1 Deferred.Commit in
  is_Some (App.interval a) ->
  (h.2 = [CallSetAuthToken None] /\
   App.user a1 = None /\ App.common a1 !! "Authorization" = None /\
   App.interval a1 = App.interval a /\
   Page.child (Deferred.page h.1) = Page.child (Deferred.page s) /\
   Page.strays (Deferred.page h.1) = Page.strays (Deferred.page s) /\
   Deferred.shown h.1 = Deferred.shown s) /\
  (tick.2 = [HttpGet "/stats" (App.common a1)] /\
   App.fetching (Page.app (Deferred.page tick.1)) = S (App.fetching a)) /\
  (c.2 = [] /\
   Page.child (Deferred.page c.1) = Page.NoView /\
   Page.strays (Deferred.page c.1) =
     (Page.strays (Deferred.page s) ++
      Page.strays_of (Page.child (Deferred.page s)))%list /\
   App.interval (Page.app (Deferred.page c.1)) = None /\
   Deferred.step c.1 (Deferred.Handler (Page.AppEv App.IntervalFired))
   = (c.1, [])).
Proof.
  destruct s as [[a ch st] sh]. cbn [Deferred.page Page.app]. intros [i Hi].
  destruct a as [us ro ld tab sts cm iv ex ft]. cbn [App.interval] in Hi.
  subst iv. split; [| split].
  - cbn. repeat split. apply lookup_delete_eq.
  - cbn. by split.
  - assert (Hrec : forall a', App.user a' = None ->
              Page.reconcile a' ch = (Page.NoView, Page.strays_of ch, [])).
    { intros a' Hu. unfold Page.reconcile, App.view_area, App.renders_main.
      rewrite Hu, bool_decide_eq_false_2 by (by intros [? ?]).
      rewrite andb_false_r. by destruct ch. }
    cbn [Deferred.step Deferred.handle_app App.step fst snd].
    unfold Deferred.commit.
    cbn [Deferred.page Page.app Page.child Page.strays Deferred.with_interval
         App.user App.polling_effect].
    rewrite Hrec by reflexivity. cbn. by repeat split.
Qed.

Lemma sign_out_takes_effect_at_commit_witness :
  let s := (Deferred.run Deferred.init Sample.deferred_requests).1 in
  let h := Deferred.step s
             (Deferred.Handler (Page.AppEv (App.AuthStateChanged None))) in
  is_Some (App.interval (Page.app (Deferred.page s))) /\
  kind (Page.child (Deferred.page h.1)) = Some App.ViolationArchiveView /\
  (exists hdrs,
     (Deferred.step h.1 (Deferred.Handler (Page.AppEv App.IntervalFired))).2
     = [HttpGet "/stats" hdrs] /\ hdrs !! "Authorization" = None) /\
  Page.child (Deferred.page (Deferred.step h.1 Deferred.Commit).1)
  = Page.NoView.
Proof.
  intros s h.
  assert (Hi : is_Some (App.interval (Page.app (Deferred.page s))))
    by (by exists 1000).
  destruct (sign_out_takes_effect_at_commit s Hi)
    as ((_ & _ & Hh & _ & Hc & _) & (Ht & _) & (_ & Hn & _)).
  split; [exact Hi |]. split; [| split].
  - fold h in Hc. by rewrite Hc.
  - eexists. split; [exact Ht | exact Hh].
  - exact Hn.
Defined.

End MountedView.

(** ** The page: leaving a view *)

Section LeavingViews.
Import MoreInv.

(** X18: the archive keeps nothing across visits. On leaving it for the
    live monitor, the archive view is unmounted with its listing and its
    open evidence, and its pending requests are left to run out; on coming
    back, a new view is mounted with an empty listing, no evidence open
    and the skeleton shown, and one [GET /violations] is sent. *)
Theorem archive_is_refetched_on_return
    (s : Page.State) (st : ViolationArchive.State) :
  Page.reachable s -> Page.child s = Page.Archive st ->
  let s1 := (Page.step s (Page.AppEv (App.NavClicked 0))).1 in
  let r := Page.step s1 (Page.AppEv (App.NavClicked 1)) in
  Page.child s1 = Page.Live /\
  Page.strays s1 =
    (Page.strays s ++ replicate (ViolationArchive.loads st) Page.StrayLoad)%list /\
  Page.child r.1 =
    Page.Archive {| ViolationArchive.violations := [];
                    ViolationArchive.selectedVideo := None;
                    ViolationArchive.loading := true;
                    ViolationArchive.loads := 1 |} /\
  r.2 = [HttpGet "/violations" (App.common (Page.app s))].
Proof.
  intros Hs Hc.
  pose proof (view_inv_reachable s Hs) as Hv. unfold view_inv in Hv.
  rewrite Hc in Hv. simpl in Hv.
  assert (Hr : App.renders_main (Page.app s) = true).
  { unfold App.view_area in Hv. by destruct (App.renders_main _). }
  clear Hs Hv. destruct s as [a ch strays]. simpl in *. subst ch.
  destruct a as [us ro ld tab sts cm iv ex ft].
  unfold App.renders_main in Hr. simpl in Hr.
  destruct ld; [discriminate Hr |].
  destruct us as [u|]; [| by vm_compute in Hr].
  destruct ro; vm_compute; by repeat split.
Qed.

Lemma archive_is_refetched_on_return_witness :
  let s := (Page.run Page.init MoreSample.on_archive).1 in
  let s1 := (Page.step s (Page.AppEv (App.NavClicked 0))).1 in
  exists st, Page.child s = Page.Archive st /\
    is_Some (ViolationArchive.selectedVideo st) /\
    List.length (uploaded_files (Page.step s1 (Page.AppEv (App.NavClicked 1))).2) = 0 /\
    List.length (Page.step s1 (Page.AppEv (App.NavClicked 1))).2 = 1.
Proof.
  intros s s1. eexists. split; [reflexivity |]. split; [by eexists |].
  assert (Hr : Page.reachable s) by (by exists MoreSample.on_archive).
  destruct (archive_is_refetched_on_return s _ Hr eq_refl) as (_ & _ & _ & H).
  fold s1 in H. by rewrite H.
Defined.

(** X19: an upload keeps its hold on the page after its settings view is
    left. When the server acknowledges such an upload, the 2000 ms timer
    is set although no settings view shows a status, the root component
    and the mounted view are not touched, and when the timer fires the
    whole page is reloaded, whichever view is shown then. *)
Theorem upload_left_behind_still_reloads
    (s : Page.State) (k : nat) (e : string) :
  Page.strays s !! k = Some Page.StrayUpload ->
  let r := Page.step s (Page.StraySettled k true e) in
  r.2 = [SetTimeout 2000] /\
  Page.app r.1 = Page.app s /\ Page.child r.1 = Page.child s /\
  Page.strays r.1 !! k = Some Page.StrayTimer /\
  (forall ok e', Page.step r.1 (Page.StraySettled k ok e')
                 = (Page.init, [Reload])).
Proof.
  intros Hk. simpl. rewrite Hk. simpl.
  assert (Hlt : k < List.length (Page.strays s)) by (by eapply lookup_lt_Some).
  repeat split; [by apply list_lookup_insert_eq |].
  intros ok e'. by rewrite list_lookup_insert_eq.
Qed.

Lemma upload_left_behind_still_reloads_witness :
  let s := (Page.run Page.init MoreSample.upload_left_behind).1 in
  let s1 := (Page.step s (Page.StraySettled 0 true "")).1 in
  Page.child s1 = Page.Live /\
  Page.step s1 (Page.StraySettled 0 true "") = (Page.init, [Reload]).
Proof.
  intros s s1.
  destruct (upload_left_behind_still_reloads s 0 "" eq_refl)
    as (_ & _ & Hc & _ & H).
  split; [| apply H].
  transitivity (Page.child s); [exact Hc | reflexivity].
Defined.

End LeavingViews.

(** ** The page: handlers and commits *)

Section CommitEach.
Import Inv MoreInv.










End CommitEach.
